(** * Authentication gate of the Discord MCP server

    A shallow embedding of [src/auth/rate_limiter.py], [src/auth/security.py],
    [src/auth/middleware.py] and the models they use, together with the
    properties of the token codec, the permission model and the sliding-window
    rate limiter.

    Conventions.
    - Python dictionaries and the Redis key space are [gmap]s, a Redis sorted
      set is a [gset] of scores.
    - [time.time()] is a clock reading counted in ticks, [hz] ticks to the
      second; a window of [w] seconds spans [w * hz] ticks.  The server
      handles the requests of a caller at the caller's clock reading.  The
      member that [zadd] stores is [str(now)], which determines and is
      determined by the score [now], so a sorted set is identified with
      its set of scores.
    - [datetime] and [timedelta] values are counted in microseconds, their
      resolution; the [exp] claim of a token is a whole number of seconds.
    - Exceptions are explicit: a fallible call returns a sum or an option. *)

From Stdlib Require Import ZArith String Ascii.
From stdpp Require Import gmap strings list fin_maps fin_sets countable sorting pretty.

#[local] Set Warnings "-clear-no-such-hyp".

Open Scope string_scope.
Open Scope list_scope.
Open Scope Z_scope.

(** ** Python helpers *)

Module Py.

(** [x or d] for an [Optional[int]]: [None] and [0] are falsy. *)
Definition or_int (x : option Z) (d : Z) : Z :=
  match x with
  | Some v => if Z.eqb v 0 then d else v
  | None => d
  end.

(** [x or d] for an [Optional[str]]: [None] and [""] are falsy. *)
Definition or_str (x : option string) (d : string) : string :=
  match x with
  | Some EmptyString => d
  | Some v => v
  | None => d
  end.

(** Truth value of an [Optional[str]]. *)
Definition truthy_str (x : option string) : bool :=
  match x with
  | Some (String _ _) => true
  | _ => false
  end.

(** Truth value of a list. *)
Definition truthy_list {A} (l : list A) : bool :=
  match l with
  | [] => false
  | _ :: _ => true
  end.

(** [x in l] for strings. *)
Definition str_in (x : string) (l : list string) : bool :=
  existsb (String.eqb x) l.

(** [sep.join(parts)]. *)
Definition join (sep : string) (parts : list string) : string :=
  String.concat sep parts.

(** [s.split(" ")]: the pieces between single spaces, empty pieces kept. *)
Fixpoint split_space (s : string) : list string :=
  match s with
  | EmptyString => [EmptyString]
  | String c rest =>
      if Ascii.eqb c " "%char then EmptyString :: split_space rest
      else match split_space rest with
           | piece :: pieces => String c piece :: pieces
           | [] => [String c EmptyString]
           end
  end.

(** [s.startswith(p)]. *)
Definition startswith (s p : string) : bool := String.prefix p s.

(** [c in s] for a character [c]. *)
Fixpoint has_char (c : ascii) (s : string) : bool :=
  match s with
  | EmptyString => false
  | String c' rest => Ascii.eqb c c' || has_char c rest
  end.

(** [str(n)] for an integer. *)
Definition str_int (n : Z) : string := pretty n.

(** The microseconds in a second. *)
Definition usec : Z := 1000000.

(** [timedelta(hours=h)]. *)
Definition hours (h : Z) : Z := h * 3600 * usec.

End Py.

(** The exceptions that leave the functions below uncaught. *)
Inductive exception := AttributeError | IndexError.

(** ** models/settings.py *)

Record Settings := {
  secret_key : string;
  api_key_expire_hours : Z;
  algorithm : string;
  rate_limit_requests : Z;
  rate_limit_window : Z
}.

(** The defaults of the [Settings] class. *)
Definition default_settings : Settings := {|
  secret_key := "dev_secret_key_change_in_production";
  api_key_expire_hours := 24;
  algorithm := "HS256";
  rate_limit_requests := 100;
  rate_limit_window := 60
|}.

(** ** The Redis server, as far as the limiter drives it *)

Module Redis.

(** A sorted-set key: its scores and its expiry deadline, if one is set. *)
Record zkey := { zmembers : gset Z; zdeadline : option Z }.

Abbreviation store := (gmap string zkey).

Inductive command :=
| ZREMRANGEBYSCORE (key : string) (lo hi : Z)
| ZCARD (key : string)
| ZADD (key : string) (score : Z)
| EXPIRE (key : string) (seconds : Z).

(** A key whose deadline has passed is gone the next time it is touched. *)
Definition expired (now : Z) (e : zkey) : bool :=
  match zdeadline e with
  | Some d => d <? now
  | None => false
  end.

Definition lookup_live (now : Z) (key : string) (st : store) : option zkey :=
  match st !! key with
  | Some e => if expired now e then None else Some e
  | None => None
  end.

(** The scores a client can see under [key] at time [now]. *)
Definition zrange (now : Z) (key : string) (st : store) : gset Z :=
  match lookup_live now key st with
  | Some e => zmembers e
  | None => ∅
  end.

Definition in_range (lo hi s : Z) : Prop := lo ≤ s ∧ s ≤ hi.

(** One command against the store, with the integer it replies. *)
Definition run (hz now : Z) (c : command) (st : store) : store * Z :=
  match c with
  | ZREMRANGEBYSCORE key lo hi =>
      match lookup_live now key st with
      | None => (delete key st, 0)
      | Some e =>
          let kept := filter (λ s, ¬ in_range lo hi s) (zmembers e) in
          let removed := Z.of_nat (size (zmembers e)) - Z.of_nat (size kept) in
          if decide (kept = ∅) then (delete key st, removed)
          else (<[key := {| zmembers := kept; zdeadline := zdeadline e |}]> st, removed)
      end
  | ZCARD key =>
      match lookup_live now key st with
      | None => (delete key st, 0)
      | Some e => (st, Z.of_nat (size (zmembers e)))
      end
  | ZADD key score =>
      match lookup_live now key st with
      | None => (<[key := {| zmembers := {[score]}; zdeadline := None |}]> st, 1)
      | Some e =>
          (<[key := {| zmembers := {[score]} ∪ zmembers e; zdeadline := zdeadline e |}]> st,
           if decide (score ∈ zmembers e) then 0 else 1)
      end
  | EXPIRE key seconds =>
      match lookup_live now key st with
      | None => (delete key st, 0)
      | Some e =>
          if seconds <=? 0 then (delete key st, 1)
          else (<[key := {| zmembers := zmembers e;
                            zdeadline := Some (now + seconds * hz) |}]> st, 1)
      end
  end.

(** A MULTI/EXEC block: the queued commands run back to back, nothing else
    in between, and the replies come back in order. *)
Fixpoint exec (hz now : Z) (cs : list command) (st : store) : store * list Z :=
  match cs with
  | [] => (st, [])
  | c :: cs' =>
      let '(st1, r) := run hz now c st in
      let '(st2, rs) := exec hz now cs' st1 in
      (st2, r :: rs)
  end.

(** What can happen to one round trip.  [Down applied] is a failure the
    client sees as an exception; [applied] tells whether the server had
    already run the block when the connection broke. *)
Inductive link := Up | Down (applied : bool).

Inductive redis_error := ConnectionError | TimeoutError | ResponseError.

(** [pipeline.execute()]. *)
Definition execute (lk : link) (hz now : Z) (cs : list command) (st : store)
  : store * (redis_error + list Z) :=
  match lk with
  | Up => let '(st', rs) := exec hz now cs st in (st', inr rs)
  | Down true => (fst (exec hz now cs st), inl TimeoutError)
  | Down false => (st, inl ConnectionError)
  end.

(** What a connection sends to the server. *)
Inductive request := MULTI | COMMAND (c : command) | EXEC.

(** The server with its connections: the key space and, for every
    connection that is inside a transaction, the commands it has queued
    since its MULTI. *)
Record server := { keyspace : store; queues : gmap nat (list command) }.

(** The server takes one request from connection [conn].  After MULTI the
    commands of the connection are queued and not run; EXEC runs the queue
    as one block and only then do the replies go out.  A command outside a
    transaction runs at once.  MULTI inside a transaction and EXEC outside
    one are refused and change nothing. *)
Definition serve (hz now : Z) (conn : nat) (r : request) (s : server)
  : server * list Z :=
  match r, queues s !! conn with
  | MULTI, None =>
      ({| keyspace := keyspace s; queues := <[conn := []]> (queues s) |}, [])
  | MULTI, Some _ => (s, [])
  | COMMAND c, Some queue =>
      ({| keyspace := keyspace s;
          queues := <[conn := (queue ++ [c])%list]> (queues s) |}, [])
  | COMMAND c, None =>
      let '(st', reply) := run hz now c (keyspace s) in
      ({| keyspace := st'; queues := queues s |}, [reply])
  | EXEC, Some queue =>
      let '(st', replies) := exec hz now queue (keyspace s) in
      ({| keyspace := st'; queues := delete conn (queues s) |}, replies)
  | EXEC, None => (s, [])
  end.

(** [zcount(key, lo, hi)]: how many visible scores lie in [lo, hi]. *)
Definition zcount (now : Z) (key : string) (lo hi : Z) (st : store) : Z :=
  Z.of_nat (size (filter (in_range lo hi) (zrange now key st))).

(** The lowest of a set of scores. *)
Definition lowest (scores : gset Z) : option Z :=
  match elements scores with
  | [] => None
  | x :: rest => Some (foldr Z.min x rest)
  end.

(** [zrange(key, 0, 0, withscores=True)]: the score of the first member
    in score order, if the key holds any. *)
Definition zrange_first (now : Z) (key : string) (st : store) : option Z :=
  lowest (zrange now key st).

End Redis.

(** ** auth/rate_limiter.py *)

Module RateLimiter.
Import Redis.

(** The four commands [is_allowed] queues on the pipeline. *)
Definition pipeline (key : string) (window hz now : Z) : list command :=
  [ ZREMRANGEBYSCORE key 0 (now - window * hz);
    ZCARD key;
    ZADD key now;
    EXPIRE key window ].

(** [RateLimiter.is_allowed]: the store after the call and the answer.
    Any exception inside the [try] ends in [return True]. *)
Definition is_allowed (cfg : Settings) (hz : Z) (lk : link) (st : store)
    (key : string) (limit window : option Z) (now : Z) : store * bool :=
  let limit := Py.or_int limit (rate_limit_requests cfg) in
  let window := Py.or_int window (rate_limit_window cfg) in
  match execute lk hz now (pipeline key window hz now) st with
  | (st', inl _) => (st', true)
  | (st', inr results) =>
      match results !! 1%nat with
      | Some request_count => (st', request_count <? limit)
      | None => (st', true)
      end
  end.

(** [RateLimiter.create_rate_limit_key]. *)
Definition create_rate_limit_key (prefix identifier : string)
    (endpoint : option string) : string :=
  let parts := [prefix; identifier] in
  let parts := if Py.truthy_str endpoint
               then (parts ++ [default "" endpoint])%list else parts in
  Py.join ":" parts.

(** [RateLimiter.reset_rate_limit] on a healthy connection. *)
Definition reset_rate_limit (st : store) (key : string) : store * bool :=
  (delete key st, true).

(** A run of calls for one key on a healthy connection, in the order the
    server executes them; each call brings its own clock reading. *)
Fixpoint calls (cfg : Settings) (hz : Z) (st : store) (key : string)
    (limit window : option Z) (nows : list Z) : store * list bool :=
  match nows with
  | [] => (st, [])
  | now :: rest =>
      let '(st1, a) := is_allowed cfg hz Up st key limit window now in
      let '(st2, bs) := calls cfg hz st1 key limit window rest in
      (st2, a :: bs)
  end.









(** The scores that survive [zremrangebyscore(key, 0, now - window)]. *)
Definition survivors (hz window now : Z) (key : string) (st : store) : gset Z :=
  filter (λ s, ¬ in_range 0 (now - window * hz) s) (zrange now key st).

(** Everything stored under [key], expired or not. *)
Definition stored (key : string) (st : store) : gset Z :=
  match st !! key with
  | Some e => zmembers e
  | None => ∅
  end.



(** The dictionary [get_rate_limit_info] returns. *)
Record RateInfo := {
  info_limit : Z;
  info_remaining : Z;
  info_reset : option Z;
  info_window : Z
}.

(** [RateLimiter.get_rate_limit_info].  Two reads, [zcount] and [zrange];
    if either raises, the fallback dictionary is returned.  [int(...)]
    truncates the reset time to whole seconds. *)
Definition get_rate_limit_info (cfg : Settings) (hz : Z) (lk : link)
    (st : store) (key : string) (now : Z) : RateInfo :=
  match lk with
  | Up =>
      let window := rate_limit_window cfg in
      let count := zcount now key (now - window * hz) now st in
      let oldest_requests := zrange_first now key st in
      let reset_time :=
        match oldest_requests with
        | Some oldest_time => Some (Z.quot (oldest_time + window * hz) hz)
        | None => None
        end in
      {| info_limit := rate_limit_requests cfg;
         info_remaining := Z.max 0 (rate_limit_requests cfg - count);
         info_reset := reset_time;
         info_window := window |}
  | Down _ =>
      {| info_limit := rate_limit_requests cfg;
         info_remaining := rate_limit_requests cfg;
         info_reset := None;
         info_window := rate_limit_window cfg |}
  end.


End RateLimiter.

(** ** models/auth.py *)

Inductive PermissionLevel := READ_ONLY | READ_WRITE | MODERATE | ADMIN.

#[global] Instance PermissionLevel_eq_dec : EqDecision PermissionLevel.
Proof. solve_decision. Defined.

Module Permission.

(** The string each member of the enum carries. *)
Definition value (p : PermissionLevel) : string :=
  match p with
  | READ_ONLY => "read_only"
  | READ_WRITE => "read_write"
  | MODERATE => "moderate"
  | ADMIN => "admin"
  end.

(** [PermissionLevel.__members__.values()]. *)
Definition members : list PermissionLevel :=
  [READ_ONLY; READ_WRITE; MODERATE; ADMIN].

(** [p in PermissionLevel.__members__.values()] for a string [p]: the enum
    mixes in [str], so a member equals the string it carries. *)
Definition is_value (p : string) : bool :=
  existsb (λ m, String.eqb p (value m)) members.

(** [PermissionLevel(p)]; [None] stands for the [ValueError]. *)
Definition of_value (p : string) : option PermissionLevel :=
  List.find (λ m, String.eqb p (value m)) members.

End Permission.

Record TokenData := {
  key_id : option string;
  user_id : option string;
  permissions : list PermissionLevel;
  guild_ids : list string;
  channel_ids : list string
}.

(** The fields of [APIKey] that [create_api_key_token] reads; [expires_at]
    is a [datetime]. *)
Record APIKey := {
  ak_key_id : string;
  ak_permissions : list PermissionLevel;
  ak_guild_ids : list string;
  ak_channel_ids : list string;
  ak_expires_at : option Z
}.

(** ** The JWT library *)

(** The values that occur in a claims dictionary. *)
Inductive jvalue :=
| JNull
| JStr (s : string)
| JNum (n : Z)
| JList (l : list string).

Abbreviation payload := (gmap string jvalue).

Inductive jwt_error := ExpiredSignatureError | InvalidSignatureError | DecodeError.

(** What the code relies on from [jwt.encode] and [jwt.decode].  Times are
    whole seconds since the epoch, as in the [exp] claim; the last argument
    of [jwt_decode] is the second the clock shows.  Encoding may raise
    ([None]); decoding returns the claims or the error it raises.  The one
    law: a token made with a supported algorithm decodes, under the same
    key and algorithm, to the claims it was made from for as long as its
    [exp] lies in the future. *)
Class JwtLib := {
  jwt_supports : string → bool;
  jwt_encode : payload → string → string → option string;
  jwt_decode : string → string → list string → Z → jwt_error + payload;
  jwt_encode_total : ∀ p key alg,
    jwt_supports alg = true → is_Some (jwt_encode p key alg);
  jwt_decode_encode : ∀ p key alg tok now e,
    jwt_encode p key alg = Some tok →
    p !! "exp" = Some (JNum e) →
    now < e →
    jwt_decode tok key [alg] now = inr p
}.

(** ** auth/security.py *)

Module Security.

(** [create_access_token]: [None] is the re-raised encoding error.
    [utcnow] is the reading of [datetime.utcnow()] and [expires_delta] a
    [timedelta]; a zero [timedelta] is falsy and falls through to the
    configured lifetime.  The library writes the [datetime] under [exp] as
    whole seconds since the epoch and drops the fraction. *)
Definition create_access_token `{JwtLib} (cfg : Settings) (utcnow : Z)
    (data : payload) (expires_delta : option Z) : option string :=
  let to_encode := data in
  let expire :=
    match expires_delta with
    | Some d => if Z.eqb d 0
                then utcnow + Py.hours (api_key_expire_hours cfg)
                else utcnow + d
    | None => utcnow + Py.hours (api_key_expire_hours cfg)
    end in
  let to_encode := <["exp" := JNum (expire `div` Py.usec)]> to_encode in
  jwt_encode to_encode (secret_key cfg) (algorithm cfg).

(** Validation of an [Optional[str]] field of [TokenData]; the outer
    [None] is the validation error. *)
Definition optional_str (v : option jvalue) : option (option string) :=
  match v with
  | None | Some JNull => Some None
  | Some (JStr s) => Some (Some s)
  | Some _ => None
  end.

(** Validation of a [List[str]] field read with [payload.get(k, [])]. *)
Definition str_list (v : option jvalue) : option (list string) :=
  match v with
  | None => Some []
  | Some (JList l) => Some l
  | Some _ => None
  end.

(** The comprehension that turns permission strings back into the enum:
    strings outside the enum do not pass the [if].  A string claim is
    walked character by character, and no single character is a member;
    [null] and numbers cannot be iterated. *)
Definition permission_levels (v : option jvalue) : option (list PermissionLevel) :=
  match v with
  | None => Some []
  | Some (JList l) => Some (omap Permission.of_value (List.filter Permission.is_value l))
  | Some (JStr _) => Some []
  | Some _ => None
  end.

(** The body of [verify_token] once the token is decoded. *)
Definition token_data (p : payload) : option TokenData :=
  k ← optional_str (p !! "key_id");
  u ← optional_str (p !! "user_id");
  perms ← permission_levels (p !! "permissions");
  g ← str_list (p !! "guild_ids");
  c ← str_list (p !! "channel_ids");
  Some {| key_id := k; user_id := u; permissions := perms;
          guild_ids := g; channel_ids := c |}.

(** [verify_token].  [utcnow] is the clock at the time of the call; the
    library compares the whole-second [exp] with it, so only the second it
    shows matters.  A token the library refuses and a claims dictionary
    that [TokenData] does not accept both raise inside the [try].  The
    first handler is [except jwt.JWTError], and the [jwt] module has no
    attribute of that name: matching the exception against it raises
    [AttributeError], which leaves the function.  The second handler and
    both [return None] are never reached. *)
Definition verify_token `{JwtLib} (cfg : Settings) (utcnow : Z)
    (token : string) : exception + TokenData :=
  match jwt_decode token (secret_key cfg) [algorithm cfg] (utcnow `div` Py.usec) with
  | inl _ => inl AttributeError
  | inr p =>
      match token_data p with
      | Some td => inr td
      | None => inl AttributeError
      end
  end.

(** The [permission_hierarchy] dictionary, read with [.get(p, 0)]. *)
Definition permission_hierarchy (p : PermissionLevel) : Z :=
  match p with
  | READ_ONLY => 1
  | READ_WRITE => 2
  | MODERATE => 3
  | ADMIN => 4
  end.

(** [max(levels, default=0)]. *)
Definition max_default (levels : list Z) : Z :=
  match levels with
  | [] => 0
  | x :: rest => fold_left Z.max rest x
  end.

(** [check_permission]. *)
Definition check_permission (token_data : TokenData)
    (required_permission : PermissionLevel)
    (guild_id channel_id : option string) : bool :=
  let level_denied :=
    if bool_decide (required_permission ∈ permissions token_data) then false
    else
      let required_level := permission_hierarchy required_permission in
      let user_max_level :=
        max_default (permission_hierarchy <$> permissions token_data) in
      user_max_level <? required_level in
  if level_denied then false
  else if Py.truthy_str guild_id && Py.truthy_list (guild_ids token_data)
          && negb (Py.str_in (default "" guild_id) (guild_ids token_data))
  then false
  else if Py.truthy_str channel_id && Py.truthy_list (channel_ids token_data)
          && negb (Py.str_in (default "" channel_id) (channel_ids token_data))
  then false
  else true.

(** The claims dictionary [create_api_key_token] builds. *)
Definition api_key_claims (k : APIKey) : payload :=
  <["key_id" := JStr (ak_key_id k)]>
  (<["permissions" := JList (Permission.value <$> ak_permissions k)]>
  (<["guild_ids" := JList (ak_guild_ids k)]>
  (<["channel_ids" := JList (ak_channel_ids k)]>
  (<["type" := JStr "api_key"]> ∅)))).

(** [create_api_key_token].  The clock is read twice: [utcnow] here, for
    the [timedelta] up to [expires_at], and [utcnow'] in
    [create_access_token], which adds the [timedelta] back. *)
Definition create_api_key_token `{JwtLib} (cfg : Settings) (utcnow utcnow' : Z)
    (k : APIKey) : option string :=
  let expires_delta :=
    match ak_expires_at k with
    | Some at_ => Some (at_ - utcnow)
    | None => None
    end in
  create_access_token cfg utcnow' (api_key_claims k) expires_delta.

End Security.

(** ** auth/middleware.py *)

Module Middleware.
Import Security.

Inductive http_error := HTTP_401_UNAUTHORIZED | HTTP_403_FORBIDDEN.

(** What the middleware reads of a request. *)
Record Request := {
  authorization : option string;
  url_path : string;
  client_host : option string
}.

(** [get_current_user]: the call of [verify_token] sits in a [try] whose
    [except Exception] turns whatever it raises into the 401. *)
Definition get_current_user `{JwtLib} (cfg : Settings) (utcnow : Z)
    (credentials : string) : http_error + TokenData :=
  match verify_token cfg utcnow credentials with
  | inl _ => inl HTTP_401_UNAUTHORIZED
  | inr td => inr td
  end.

(** [require_permission(required_permission)], applied to the user. *)
Definition require_permission (required_permission : PermissionLevel)
    (current_user : TokenData) : http_error + TokenData :=
  if negb (check_permission current_user required_permission None None)
  then inl HTTP_403_FORBIDDEN
  else inr current_user.

(** [require_guild_access(guild_id)], applied to the user. *)
Definition require_guild_access (guild_id : string)
    (current_user : TokenData) : http_error + TokenData :=
  if Py.truthy_list (guild_ids current_user)
     && negb (Py.str_in guild_id (guild_ids current_user))
  then inl HTTP_403_FORBIDDEN
  else inr current_user.

(** [require_channel_access(channel_id)], applied to the user. *)
Definition require_channel_access (channel_id : string)
    (current_user : TokenData) : http_error + TokenData :=
  if Py.truthy_list (channel_ids current_user)
     && negb (Py.str_in channel_id (channel_ids current_user))
  then inl HTTP_403_FORBIDDEN
  else inr current_user.

(** The [user_id] that [rate_limit_middleware] works out of the request.
    Nothing here catches what [verify_token] raises. *)
Definition middleware_user_id `{JwtLib} (cfg : Settings) (utcnow : Z)
    (request : Request) : exception + string :=
  let user_id_ := "anonymous" in
  match authorization request with
  | Some auth_header =>
      if Py.truthy_str (Some auth_header) && Py.startswith auth_header "Bearer "
      then
        match Py.split_space auth_header !! 1%nat with
        | None => inl IndexError
        | Some token =>
            match verify_token cfg utcnow token with
            | inl e => inl e
            | inr td => inr (Py.or_str (key_id td) (Py.or_str (user_id td) "anonymous"))
            end
        end
      else inr user_id_
  | None => inr user_id_
  end.

(** The [rate_limit_key] that [rate_limit_middleware] hands to the limiter. *)
Definition rate_limit_key `{JwtLib} (cfg : Settings) (utcnow : Z)
    (request : Request) : exception + string :=
  match middleware_user_id cfg utcnow request with
  | inl e => inl e
  | inr uid =>
      inr (RateLimiter.create_rate_limit_key "api" uid (Some (url_path request)))
  end.

(** [AuthenticationManager.authenticate_request]: it returns what
    [verify_token] returns and raises what it raises. *)
Definition authenticate_request `{JwtLib} (cfg : Settings) (utcnow : Z)
    (request : Request) : exception + option TokenData :=
  match authorization request with
  | Some auth_header =>
      if negb (Py.truthy_str (Some auth_header))
         || negb (Py.startswith auth_header "Bearer ")
      then inr None
      else
        match Py.split_space auth_header !! 1%nat with
        | None => inl IndexError
        | Some token =>
            match verify_token cfg utcnow token with
            | inl e => inl e
            | inr td => inr (Some td)
            end
        end
  | None => inr None
  end.

(** What the middleware sees of a response: its status and its headers. *)
Record Response := {
  status_code : Z;
  headers : gmap string string
}.

(** The [HTTPException] the middleware raises. *)
Record HTTPException := {
  exc_status_code : Z;
  exc_detail : string;
  exc_headers : gmap string string
}.

(** [rate_limit_middleware].  [lk_check] is the connection as [is_allowed]
    finds it at [now], [lk_info] as [get_rate_limit_info] finds it at
    [later]; [call_next] is the rest of the application, taken to return a
    response and to leave the limiter's keys alone.  The result is the
    store afterwards and either the exception raised or the response
    returned. *)
Definition rate_limit_middleware `{JwtLib} (cfg : Settings) (hz : Z)
    (lk_check lk_info : Redis.link) (st : Redis.store)
    (utcnow now later : Z) (request : Request)
    (call_next : Request → Response)
  : exception + (Redis.store * (HTTPException + Response)) :=
  match rate_limit_key cfg utcnow request with
  | inl e => inl e
  | inr key =>
      let '(st', is_allowed) :=
        RateLimiter.is_allowed cfg hz lk_check st key None None now in
      let rate_info := RateLimiter.get_rate_limit_info cfg hz lk_info st' key later in
      if negb is_allowed then
        inr (st', inl {|
          exc_status_code := 429;
          exc_detail := "Rate limit exceeded";
          exc_headers :=
            <["X-RateLimit-Limit" := Py.str_int (RateLimiter.info_limit rate_info)]>
            (<["X-RateLimit-Remaining" := Py.str_int (RateLimiter.info_remaining rate_info)]>
            (<["X-RateLimit-Reset" :=
                 match RateLimiter.info_reset rate_info with
                 | Some 0 | None => ""
                 | Some reset => Py.str_int reset
                 end]>
            (<["Retry-After" := Py.str_int (RateLimiter.info_window rate_info)]> ∅)))
        |})
      else
        let response := call_next request in
        let hdrs :=
          <["X-RateLimit-Remaining" := Py.str_int (RateLimiter.info_remaining rate_info)]>
          (<["X-RateLimit-Limit" := Py.str_int (RateLimiter.info_limit rate_info)]>
             (headers response)) in
        let hdrs :=
          match RateLimiter.info_reset rate_info with
          | Some 0 | None => hdrs
          | Some reset => <["X-RateLimit-Reset" := Py.str_int reset]> hdrs
          end in
        inr (st', inr {| status_code := status_code response; headers := hdrs |})
  end.

End Middleware.

(** ** Claims as dictionaries, and the statements under test *)

Module Claims.
Import Security Middleware.

(** An [Optional[str]] as it sits in a claims dictionary. *)
Definition of_optional (x : option string) : jvalue :=
  match x with
  | Some s => JStr s
  | None => JNull
  end.

(** The dictionary that carries the claims set [c]: permissions travel as
    the strings of the enum. *)
Definition claims_dict (c : TokenData) : payload :=
  <["key_id" := of_optional (key_id c)]>
  (<["user_id" := of_optional (user_id c)]>
  (<["permissions" := JList (Permission.value <$> permissions c)]>
  (<["guild_ids" := JList (guild_ids c)]>
  (<["channel_ids" := JList (channel_ids c)]> ∅)))).

(** The same claims set with other permissions. *)
Definition with_permissions (c : TokenData) (ps : list PermissionLevel) : TokenData :=
  {| key_id := key_id c; user_id := user_id c; permissions := ps;
     guild_ids := guild_ids c; channel_ids := channel_ids c |}.

(** Holding some level at or above the required one. *)
Definition holds_level (held : list PermissionLevel) (required : PermissionLevel) : Prop :=
  ∃ h, h ∈ held ∧ permission_hierarchy required ≤ permission_hierarchy h.

(** The order of the specification, ReadOnly < ReadWrite < Moderate <
    Admin, written out level by level: [spec_le p q] tells whether [p] is
    at most [q]. *)
Definition spec_le (p q : PermissionLevel) : bool :=
  match p, q with
  | READ_ONLY, _ => true
  | READ_WRITE, (READ_WRITE | MODERATE | ADMIN) => true
  | MODERATE, (MODERATE | ADMIN) => true
  | ADMIN, ADMIN => true
  | _, _ => false
  end.

(** The highest of the held levels in that order; nothing held has no
    highest level. *)
Definition spec_max (held : list PermissionLevel) : option PermissionLevel :=
  foldr (λ p highest,
           match highest with
           | None => Some p
           | Some q => Some (if spec_le p q then q else p)
           end) None held.

(** [satisfies] in the specification's words: the highest level held is
    at least the required one, and nothing held satisfies nothing. *)
Definition spec_satisfies (held : list PermissionLevel)
    (required : PermissionLevel) : bool :=
  match spec_max held with
  | Some highest => spec_le required highest
  | None => false
  end.

(** The scope rule in the specification's words, for one dimension: the
    requested id is absent, or the scope is empty, or the id is listed. *)
Definition spec_in_scope (requested : option string) (scope : list string) : Prop :=
  requested = None ∨ scope = [] ∨ ∃ id, requested = Some id ∧ id ∈ scope.

(** The scope rule as [check_permission] applies it: an empty id counts as
    no id at all. *)
Definition code_in_scope (requested : option string) (scope : list string) : Prop :=
  requested = None ∨ requested = Some "" ∨ scope = [] ∨
  ∃ id, requested = Some id ∧ id ∈ scope.



(** The principal identifier as [rate_limit_middleware] computes it:
    from the claims [verify_token] returned, or, with [None], for a
    request without a bearer token. *)
Definition code_principal (td : option TokenData) : string :=
  match td with
  | Some td => Py.or_str (key_id td) (Py.or_str (user_id td) "anonymous")
  | None => "anonymous"
  end.

(** The bearer token of a request, when its header has the shape the
    middleware looks for. *)
Definition bearer_token (request : Request) : option string :=
  match authorization request with
  | Some h => if Py.startswith h "Bearer " then Py.split_space h !! 1%nat else None
  | None => None
  end.

End Claims.

(** ** A reference JWT library

    A small codec that meets [JwtLib], to run the code on concrete tokens.
    A token is the claims, the key and the algorithm written out in binary;
    decoding checks key and algorithm, then the [exp] claim. *)

#[global] Instance jvalue_eq_dec : EqDecision jvalue.
Proof. solve_decision. Defined.

#[global] Instance jvalue_countable : Countable jvalue.
Proof.
  refine (inj_countable'
    (λ v, match v with
          | JNull => inl ()
          | JStr s => inr (inl s)
          | JNum n => inr (inr (inl n))
          | JList l => inr (inr (inr l))
          end)
    (λ x, match x with
          | inl _ => JNull
          | inr (inl s) => JStr s
          | inr (inr (inl n)) => JNum n
          | inr (inr (inr l)) => JList l
          end) _).
  by intros [].
Defined.

Module RefJwt.

Fixpoint bits (p : positive) : string :=
  match p with
  | xH => ""
  | xO q => String "0" (bits q)
  | xI q => String "1" (bits q)
  end.

Fixpoint unbits (s : string) : option positive :=
  match s with
  | EmptyString => Some xH
  | String c r =>
      if Ascii.eqb c "0" then xO <$> unbits r
      else if Ascii.eqb c "1" then xI <$> unbits r
      else None
  end.

Definition seal (p : payload) (key alg : string) : string :=
  bits (encode (p, key, alg)).

Definition unseal (tok : string) : option (payload * string * string) :=
  unbits tok ≫= decode.

Definition supports (alg : string) : bool := String.eqb alg "HS256".

Definition ref_encode (p : payload) (key alg : string) : option string :=
  if supports alg then Some (seal p key alg) else None.

Definition ref_decode (tok key : string) (algs : list string) (now : Z)
  : jwt_error + payload :=
  match unseal tok with
  | None => inl DecodeError
  | Some (p, k, a) =>
      if bool_decide (k = key ∧ a ∈ algs) then
        match p !! "exp" with
        | Some (JNum e) => if e <=? now then inl ExpiredSignatureError else inr p
        | _ => inr p
        end
      else inl InvalidSignatureError
  end.

Lemma unbits_bits p : unbits (bits p) = Some p.
Proof. induction p as [q IH|q IH|]; cbn; by rewrite ?IH. Qed.

Lemma unseal_seal p key alg : unseal (seal p key alg) = Some (p, key, alg).
Proof. unfold unseal, seal. rewrite unbits_bits. cbn. apply decode_encode. Qed.

Lemma ref_encode_total p key alg :
  supports alg = true → is_Some (ref_encode p key alg).
Proof. unfold ref_encode. intros ->. eauto. Qed.

Lemma ref_decode_encode p key alg tok now e :
  ref_encode p key alg = Some tok →
  p !! "exp" = Some (JNum e) →
  now < e →
  ref_decode tok key [alg] now = inr p.
Proof.
  unfold ref_encode, ref_decode. destruct (supports alg); [|done].
  intros [= <-] Hexp Hnow. rewrite unseal_seal, Hexp.
  rewrite bool_decide_eq_true_2 by (split; [done | set_solver]).
  destruct (e <=? now) eqn:E; [apply Z.leb_le in E; lia | done].
Qed.

Definition ref_jwt : JwtLib := {|
  jwt_supports := supports;
  jwt_encode := ref_encode;
  jwt_decode := ref_decode;
  jwt_encode_total := ref_encode_total;
  jwt_decode_encode := ref_decode_encode
|}.

End RefJwt.

(** * Properties *)

(** ** The definitions on small inputs *)

Section first_checks.
Import Redis RateLimiter Security Middleware.

Example split_bearer : Py.split_space "Bearer abc" = ["Bearer"; "abc"].
Proof. reflexivity. Qed.

Example split_two_spaces : Py.split_space "Bearer  abc" !! 1%nat = Some "".
Proof. reflexivity. Qed.

Example zero_limit_is_default : Py.or_int (Some 0) 100 = 100.
Proof. reflexivity. Qed.

Example key_without_endpoint : create_rate_limit_key "api" "key_1" None = "api:key_1".
Proof. reflexivity. Qed.

Example key_with_endpoint :
  create_rate_limit_key "api" "key_1" (Some "/messages") = "api:key_1:/messages".
Proof. reflexivity. Qed.

(** Limit 5, window 60 s, six requests in quick succession. *)
Example six_in_a_row :
  snd (calls default_settings 1000 ∅ "k" (Some 5) (Some 60) [10; 20; 30; 40; 50; 60])
  = [true; true; true; true; true; false].
Proof. vm_compute. reflexivity. Qed.

(** A read-only principal scoped to guild g1. *)
Example read_only_on_g1 :
  let td := {| key_id := Some "key_1"; user_id := None;
               permissions := [READ_ONLY];
               guild_ids := ["g1"]; channel_ids := [] |} in
  check_permission td READ_WRITE (Some "g1") None = false ∧
  check_permission td READ_ONLY (Some "g2") None = false ∧
  check_permission td READ_ONLY (Some "g1") None = true.
Proof. by vm_compute. Qed.

End first_checks.

(** ** The limiter on a healthy connection *)

Section limiter_facts.
Import Redis RateLimiter.
Context (cfg : Settings) (hz : Z).

Lemma lookup_live_insert now key e (st : store) :
  lookup_live now key (<[key := e]> st) = if expired now e then None else Some e.
Proof. unfold lookup_live. by rewrite lookup_insert_eq. Qed.

Lemma lookup_live_delete now key (st : store) :
  lookup_live now key (delete key st) = None.
Proof. unfold lookup_live. by rewrite lookup_delete_eq. Qed.

(** One healthy call, in closed form: the answer compares the number of
    survivors with the limit, and the key afterwards holds the survivors
    and the new reading, due to expire one window later. *)
Lemma is_allowed_up st key limit window now :
  let L := Py.or_int limit (rate_limit_requests cfg) in
  let W := Py.or_int window (rate_limit_window cfg) in
  let kept := survivors hz W now key st in
  is_allowed cfg hz Up st key limit window now =
    (if W <=? 0 then delete key st
     else <[key := {| zmembers := {[now]} ∪ kept;
                      zdeadline := Some (now + W * hz) |}]> st,
     Z.of_nat (size kept) <? L).
Proof.
  intros L W kept. unfold is_allowed, execute, pipeline.
  fold L W. unfold kept, survivors, zrange. cbn [exec run].
  destruct (lookup_live now key st) as [e|] eqn:Hlive.
  - unfold lookup_live in Hlive.
    destruct (st !! key) as [e'|] eqn:Hk; [|done].
    destruct (expired now e') eqn:Hexp; [done|]. simplify_eq.
    set (K := filter _ (zmembers e)).
    destruct (decide (K = ∅)) as [HK|HK].
    + rewrite !lookup_live_delete. cbn. rewrite lookup_live_insert. cbn.
      rewrite HK, size_empty. destruct (W <=? 0); cbn.
      * by rewrite delete_insert_eq, !delete_delete_eq.
      * f_equal. rewrite insert_insert_eq, !insert_delete_eq.
        by rewrite union_empty_r_L.
    + rewrite !lookup_live_insert. unfold expired in *. cbn.
      rewrite Hexp. cbn. rewrite lookup_live_insert. unfold expired. cbn.
      rewrite Hexp. cbn. rewrite lookup_live_insert. unfold expired. cbn.
      rewrite Hexp. destruct (W <=? 0); cbn.
      * by rewrite !delete_insert_eq.
      * by rewrite !insert_insert_eq.
  - rewrite !lookup_live_delete. cbn. rewrite lookup_live_insert. cbn.
    rewrite filter_empty_L by apply _. rewrite size_empty. destruct (W <=? 0); cbn.
    + by rewrite delete_insert_eq, !delete_delete_eq.
    + f_equal. rewrite insert_insert_eq, !insert_delete_eq.
      by rewrite union_empty_r_L.
Qed.

End limiter_facts.

Section limiter_runs.
Import Redis RateLimiter.
Context (cfg : Settings) (hz : Z) (key : string) (limit window : option Z).

Let L := Py.or_int limit (rate_limit_requests cfg).
Let W := Py.or_int window (rate_limit_window cfg).

Lemma zrange_stored now (st : store) : zrange now key st ⊆ stored key st.
Proof.
  unfold zrange, stored, lookup_live.
  destruct (st !! key) as [e|]; [|done]. by destruct (expired now e).
Qed.

Lemma survivors_stored w now (st : store) : survivors hz w now key st ⊆ stored key st.
Proof.
  unfold survivors. intros s [_ Hs]%elem_of_filter. by apply (zrange_stored now).
Qed.



Lemma calls_length nows : ∀ st,
  List.length (snd (calls cfg hz st key limit window nows)) = List.length nows.
Proof.
  induction nows as [|now rest IH]; intros st; cbn; [done|].
  destruct (is_allowed cfg hz Up st key limit window now) as [st1 a].
  specialize (IH st1).
  destruct (calls cfg hz st1 key limit window rest) as [st2 bs].
  cbn in *. by rewrite IH.
Qed.

(** Once every stored reading is a full window old, the next call is let
    through. *)
Lemma is_allowed_after_quiet st later :
  1 ≤ L →
  (∀ s, s ∈ stored key st → 0 ≤ s ∧ s + W * hz ≤ later) →
  snd (is_allowed cfg hz Up st key limit window later) = true.
Proof.
  intros HL Hold. rewrite is_allowed_up. cbn [snd]. fold W L.
  assert (survivors hz W later key st = ∅) as ->.
  { apply set_eq. intros s. split; [|set_solver].
    intros Hs. pose proof (survivors_stored _ _ _ _ Hs) as Hst.
    apply elem_of_filter in Hs as [Hout _]. exfalso. apply Hout.
    unfold in_range. destruct (Hold s Hst). lia. }
  rewrite size_empty. apply Z.ltb_lt. lia.
Qed.



End limiter_runs.

Section verdict_facts.
Import RateLimiter.










End verdict_facts.

(** ** Callers side by side *)

Section interleaving.
Import Redis RateLimiter.
Context (cfg : Settings) (hz : Z) (key : string) (limit window : option Z).
Context (readings : list Z) (st : store).

Let L := Py.or_int limit (rate_limit_requests cfg).
Let W := Py.or_int window (rate_limit_window cfg).









End interleaving.

(** ** The claims about the limiter *)

Section limiter_claims.
Import Redis RateLimiter.


(** C2, as amended.  On a healthy connection every call records its own
    reading, admitted or not: afterwards the key holds the readings that
    survived the removal of the stale ones together with [now], and is due
    to expire one window later.  The answer is [True] exactly when fewer
    than [L] readings survived, and no other key is touched. *)
Theorem is_allowed_always_records
    (cfg : Settings) (hz : Z) (st : store) (key : string)
    (limit window : option Z) (now : Z) :
  let L := Py.or_int limit (rate_limit_requests cfg) in
  let W := Py.or_int window (rate_limit_window cfg) in
  let kept := survivors hz W now key st in
  let after := is_allowed cfg hz Up st key limit window now in
  1 ≤ W →
  (snd after = true ↔ Z.of_nat (size kept) < L) ∧
  fst after !! key = Some {| zmembers := {[now]} ∪ kept;
                             zdeadline := Some (now + W * hz) |} ∧
  now ∈ stored key (fst after) ∧
  (∀ other, other ≠ key → fst after !! other = st !! other).
Proof.
  intros L W kept after HW. unfold after. rewrite is_allowed_up.
  fold L W kept. cbn [fst snd].
  destruct (W <=? 0) eqn:E; [apply Z.leb_le in E; lia|].
  split_and!.
  - apply Z.ltb_lt.
  - by rewrite lookup_insert_eq.
  - unfold stored. rewrite lookup_insert_eq. cbn. set_solver.
  - intros other Hne. by rewrite lookup_insert_ne.
Qed.


(** C4. When the round trip to the store fails, whether or not the server
    had run the block, [is_allowed] answers [True]; the failure is
    swallowed, and the call has an answer at all for every input. *)
Theorem is_allowed_fails_open
    (cfg : Settings) (hz : Z) (st : store) (key : string)
    (limit window : option Z) (now : Z) (applied : bool) :
  snd (is_allowed cfg hz (Down applied) st key limit window now) = true.
Proof. unfold is_allowed, execute. by destruct applied. Qed.

End limiter_claims.

(** ** The permission model *)

Section permission_facts.
Import Security Middleware Claims.

Lemma str_in_elem_of x (l : list string) : Py.str_in x l = true ↔ x ∈ l.
Proof.
  unfold Py.str_in. rewrite existsb_exists. split.
  - intros (y & Hy & ->%String.eqb_eq). by apply list_elem_of_In.
  - intros Hx. exists x. split; [by apply list_elem_of_In | apply String.eqb_refl].
Qed.

Lemma fold_left_max_le y (l : list Z) : ∀ x,
  y ≤ fold_left Z.max l x ↔ y ≤ x ∨ ∃ z, z ∈ l ∧ y ≤ z.
Proof.
  induction l as [|a l IH]; intros x; cbn.
  - split; [auto | intros [?|(z & Hz & _)]; [done | by apply elem_of_nil in Hz]].
  - rewrite IH. split.
    + intros [Hx|(z & Hz & Hy)].
      * destruct (Z.max_spec x a) as [[_ E]|[_ E]]; rewrite E in Hx; [|auto].
        right. exists a. split; [left | done].
      * right. exists z. split; [by right | done].
    + intros [Hx|(z & Hz & Hy)]; [left; lia|].
      apply elem_of_cons in Hz as [->|Hz]; [left; lia|].
      right. by exists z.
Qed.

Lemma max_default_le y (l : list Z) :
  0 < y → y ≤ max_default l ↔ ∃ z, z ∈ l ∧ y ≤ z.
Proof.
  intros Hy. destruct l as [|a l]; cbn.
  - split; [lia | intros (z & Hz & _); by apply elem_of_nil in Hz].
  - rewrite fold_left_max_le. split.
    + intros [Ha|(z & Hz & Hle)]; [exists a | exists z]; (split; [|done]).
      * left.
      * by right.
    + intros (z & Hz & Hle). apply elem_of_cons in Hz as [->|Hz]; [by left|].
      right. by exists z.
Qed.

Lemma permission_hierarchy_pos p : 0 < permission_hierarchy p.
Proof. by destruct p. Qed.

(** The level part of [check_permission], on its own. *)
Lemma level_check td required :
  check_permission td required None None = true ↔
  permission_hierarchy required
    ≤ max_default (permission_hierarchy <$> permissions td).
Proof.
  unfold check_permission. cbn.
  rewrite max_default_le by apply permission_hierarchy_pos.
  case_bool_decide as Hin.
  - split; [|done]. intros _. exists (permission_hierarchy required).
    split; [|lia]. apply list_elem_of_fmap. by exists required.
  - destruct (_ <? _) eqn:E.
    + apply Z.ltb_lt in E. split; [done|]. intros Hex.
      apply max_default_le in Hex; [lia | apply permission_hierarchy_pos].
    + apply Z.ltb_ge in E. split; [|done]. intros _.
      apply max_default_le; [apply permission_hierarchy_pos | done].
Qed.

Lemma level_check_holds td required :
  check_permission td required None None = true ↔
  holds_level (permissions td) required.
Proof.
  rewrite level_check, max_default_le by apply permission_hierarchy_pos.
  unfold holds_level. split.
  - intros (z & (h & -> & Hh)%list_elem_of_fmap & Hle). by exists h.
  - intros (h & Hh & Hle). exists (permission_hierarchy h).
    split; [|done]. apply list_elem_of_fmap. by exists h.
Qed.

(** The table of [check_permission] ranks the levels in the order of the
    specification. *)
Lemma spec_le_hierarchy p q :
  spec_le p q = true ↔ permission_hierarchy p ≤ permission_hierarchy q.
Proof. destruct p, q; cbn; split; intros; (done || lia). Qed.

Lemma spec_le_chain :
  spec_le READ_ONLY READ_WRITE = true ∧ spec_le READ_WRITE READ_ONLY = false ∧
  spec_le READ_WRITE MODERATE = true ∧ spec_le MODERATE READ_WRITE = false ∧
  spec_le MODERATE ADMIN = true ∧ spec_le ADMIN MODERATE = false.
Proof. done. Qed.

Lemma spec_max_highest held :
  match spec_max held with
  | None => held = []
  | Some highest =>
      highest ∈ held ∧ ∀ h, h ∈ held → spec_le h highest = true
  end.
Proof.
  induction held as [|p held IH]; [done|]. cbn [spec_max foldr].
  fold (spec_max held). destruct (spec_max held) as [q|].
  - destruct IH as [Hq Hmax]. destruct (spec_le p q) eqn:E.
    + split; [by right|]. intros h [->|Hh]%elem_of_cons; [done | by apply Hmax].
    + split; [by left|]. intros h [->|Hh]%elem_of_cons.
      * by apply spec_le_hierarchy.
      * specialize (Hmax h Hh). apply not_true_iff_false in E.
        rewrite spec_le_hierarchy in *. lia.
  - subst held. split; [by left|]. intros h ->%list_elem_of_singleton.
    by apply spec_le_hierarchy.
Qed.

Lemma spec_satisfies_holds held required :
  spec_satisfies held required = true ↔
  ∃ h, h ∈ held ∧ spec_le required h = true.
Proof.
  unfold spec_satisfies. pose proof (spec_max_highest held) as Hmax.
  destruct (spec_max held) as [highest|].
  - destruct Hmax as [Hin Hmax]. split; [by exists highest|].
    intros (h & Hh & Hle). specialize (Hmax h Hh).
    rewrite spec_le_hierarchy in *. lia.
  - subst held. split; [done|]. by intros (h & Hh%elem_of_nil & _).
Qed.

Lemma level_check_satisfies td required :
  check_permission td required None None = spec_satisfies (permissions td) required.
Proof.
  apply eq_true_iff_eq.
  rewrite level_check_holds, spec_satisfies_holds. unfold holds_level.
  by setoid_rewrite spec_le_hierarchy.
Qed.

(** One dimension of the scope part of [check_permission]. *)
Lemma scope_guard requested (scope : list string) :
  Py.truthy_str requested && Py.truthy_list scope
    && negb (Py.str_in (default "" requested) scope) = false
  ↔ code_in_scope requested scope.
Proof.
  unfold code_in_scope. destruct requested as [[|c id]|]; cbn.
  - split; auto.
  - destruct scope as [|x scope]; cbn [Py.truthy_list andb].
    + split; auto.
    + rewrite negb_false_iff, str_in_elem_of. split.
      * intros Hin. do 3 right. by eexists.
      * intros [?|[?|[?|(id' & [= <-] & Hin)]]]; done.
  - split; auto.
Qed.

End permission_facts.

Section permission_claims.
Import Security Middleware Claims.

(** C6. Scope arguments aside, [check_permission] succeeds exactly when
    the highest level held is at least the required one in the order
    READ_ONLY < READ_WRITE < MODERATE < ADMIN of the specification, that
    is, when some held level is at or above the required one in that
    order; with nothing held it fails for every requirement.
    [require_permission] lets the user through in the same cases. *)
Theorem check_permission_is_max (td : TokenData) (required : PermissionLevel) :
  check_permission td required None None
    = spec_satisfies (permissions td) required ∧
  (check_permission td required None None = true ↔
     ∃ h, h ∈ permissions td ∧ spec_le required h = true) ∧
  (require_permission required td = inr td ↔
     spec_satisfies (permissions td) required = true) ∧
  check_permission (with_permissions td []) required None None = false.
Proof.
  split_and!.
  - apply level_check_satisfies.
  - rewrite level_check_satisfies. apply spec_satisfies_holds.
  - rewrite <- level_check_satisfies. unfold require_permission.
    destruct (check_permission td required None None); cbn; split; done.
  - by destruct required.
Qed.

(** C7, as amended.  [check_permission] succeeds exactly when the level
    suffices and, for guilds and for channels alike, the requested id is
    absent or the empty string, or the scope is empty, or the id is listed
    in the scope.  [require_guild_access] and [require_channel_access],
    which always get an id, pass exactly when the scope is empty or lists
    that id. *)
Theorem scope_check (td : TokenData) (required : PermissionLevel)
    (guild_id channel_id : option string) :
  (check_permission td required guild_id channel_id = true ↔
     check_permission td required None None = true ∧
     code_in_scope guild_id (guild_ids td) ∧
     code_in_scope channel_id (channel_ids td)) ∧
  (∀ id, require_guild_access id td = inr td ↔
           guild_ids td = [] ∨ id ∈ guild_ids td) ∧
  (∀ id, require_channel_access id td = inr td ↔
           channel_ids td = [] ∨ id ∈ channel_ids td).
Proof.
  split_and!.
  - rewrite <- !scope_guard. unfold check_permission. cbn.
    destruct (if bool_decide _ then false else _); [naive_solver|].
    destruct (Py.truthy_str guild_id && _ && _);
      destruct (Py.truthy_str channel_id && _ && _); naive_solver.
  - intros id. unfold require_guild_access.
    destruct (guild_ids td) as [|x l]; cbn [Py.truthy_list andb]; [naive_solver|].
    destruct (Py.str_in id (x :: l)) eqn:E; cbn [negb].
    + apply str_in_elem_of in E. naive_solver.
    + split; [done|]. intros [?|Hin%str_in_elem_of]; congruence.
  - intros id. unfold require_channel_access.
    destruct (channel_ids td) as [|x l]; cbn [Py.truthy_list andb]; [naive_solver|].
    destruct (Py.str_in id (x :: l)) eqn:E; cbn [negb].
    + apply str_in_elem_of in E. naive_solver.
    + split; [done|]. intros [?|Hin%str_in_elem_of]; congruence.
Qed.

(** C7 as stated fails: a principal scoped to guild ["g1"] passes the
    check for the empty guild id, which is present, not listed, and the
    scope is not empty. *)
Lemma scope_check_empty_id :
  let td := {| key_id := Some "key_1"; user_id := None;
               permissions := [READ_ONLY];
               guild_ids := ["g1"]; channel_ids := [] |} in
  check_permission td READ_ONLY (Some "") None = true ∧
  ¬ spec_in_scope (Some "") (guild_ids td).
Proof.
  split; [reflexivity|]. unfold spec_in_scope. cbn.
  intros [?|[?|(id & [= <-] & Hin)]]; [done..|].
  apply list_elem_of_singleton in Hin. done.
Qed.

End permission_claims.

(** ** The token codec *)

Section codec_facts.
Import Security Claims.

Lemma permission_levels_values (ps : list PermissionLevel) :
  omap Permission.of_value (List.filter Permission.is_value (Permission.value <$> ps)) = ps.
Proof.
  induction ps as [|p ps IH]; [done|].
  destruct p; cbn; by rewrite IH.
Qed.

Lemma of_value_unknown s : Permission.is_value s = false → Permission.of_value s = None.
Proof.
  unfold Permission.is_value, Permission.of_value.
  induction Permission.members as [|m ms IH]; cbn; [done|].
  destruct (String.eqb s (Permission.value m)); [done | exact IH].
Qed.

(** Filtering on membership first changes nothing for the conversion. *)
Lemma omap_of_value_filter (l : list string) :
  omap Permission.of_value (List.filter Permission.is_value l)
  = omap Permission.of_value l.
Proof.
  induction l as [|s l IH]; [done|]. cbn [List.filter].
  change (omap Permission.of_value (s :: l))
    with (match Permission.of_value s with
          | Some y => y :: omap Permission.of_value l
          | None => omap Permission.of_value l
          end).
  destruct (Permission.is_value s) eqn:E.
  - change (omap Permission.of_value (s :: List.filter Permission.is_value l))
      with (match Permission.of_value s with
            | Some y => y :: omap Permission.of_value (List.filter Permission.is_value l)
            | None => omap Permission.of_value (List.filter Permission.is_value l)
            end).
    by rewrite IH.
  - by rewrite IH, (of_value_unknown s E).
Qed.

(** [verify_token] does not read the [exp] claim itself. *)
Lemma token_data_exp (p : payload) v : token_data (<["exp" := v]> p) = token_data p.
Proof. unfold token_data. by rewrite !lookup_insert_ne by done. Qed.

Lemma optional_str_of_optional x : optional_str (Some (of_optional x)) = Some x.
Proof. by destruct x. Qed.

Lemma token_data_claims_dict (c : TokenData) : token_data (claims_dict c) = Some c.
Proof.
  unfold token_data, claims_dict.
  repeat (rewrite lookup_insert_eq || rewrite lookup_insert_ne by done).
  rewrite !optional_str_of_optional. cbn.
  rewrite permission_levels_values. by destruct c.
Qed.

End codec_facts.

Section codec_claims.
Import Security Claims.
Context `{!JwtLib}.

(** [AttributeError] is all that [verify_token] raises. *)
Lemma verify_token_raises (cfg : Settings) (utcnow : Z) (token : string) e :
  verify_token cfg utcnow token = inl e → e = AttributeError.
Proof.
  unfold verify_token. destruct (jwt_decode _ _ _ _) as [|p]; [congruence|].
  destruct (token_data p); congruence.
Qed.

(** Whatever dictionary a token is issued for, with whatever lifetime,
    the library decodes it, in any second before the one its expiry falls
    in, to the dictionary with that second under [exp]. *)
Lemma decode_issued (cfg : Settings) (data : payload)
    (expires_delta : option Z) (issued_at checked_at : Z) :
  let lifetime :=
    match expires_delta with
    | Some 0 | None => Py.hours (api_key_expire_hours cfg)
    | Some d => d
    end in
  jwt_supports (algorithm cfg) = true →
  checked_at `div` Py.usec < (issued_at + lifetime) `div` Py.usec →
  ∃ token,
    create_access_token cfg issued_at data expires_delta = Some token ∧
    jwt_decode token (secret_key cfg) [algorithm cfg] (checked_at `div` Py.usec)
      = inr (<["exp" := JNum ((issued_at + lifetime) `div` Py.usec)]> data).
Proof.
  intros lifetime Halg Hnow. unfold create_access_token.
  set (expire := match expires_delta with
                 | Some d => if d =? 0 then _ else _
                 | None => _
                 end).
  assert (expire = issued_at + lifetime) as ->.
  { unfold expire, lifetime. destruct expires_delta as [[| |]|]; done. }
  destruct (jwt_encode_total
              (<["exp" := JNum ((issued_at + lifetime) `div` Py.usec)]> data)
              (secret_key cfg) (algorithm cfg) Halg) as [token Htok].
  exists token. split; [done|].
  apply (jwt_decode_encode _ _ _ _ _ ((issued_at + lifetime) `div` Py.usec) Htok);
    [by rewrite lookup_insert_eq | done].
Qed.

(** It then verifies to what the dictionary itself holds. *)
Lemma verify_issued (cfg : Settings) (data : payload)
    (expires_delta : option Z) (issued_at checked_at : Z) :
  let lifetime :=
    match expires_delta with
    | Some 0 | None => Py.hours (api_key_expire_hours cfg)
    | Some d => d
    end in
  jwt_supports (algorithm cfg) = true →
  checked_at `div` Py.usec < (issued_at + lifetime) `div` Py.usec →
  ∃ token,
    create_access_token cfg issued_at data expires_delta = Some token ∧
    verify_token cfg checked_at token
      = from_option inr (inl AttributeError) (token_data data).
Proof.
  intros lifetime Halg Hnow.
  destruct (decode_issued cfg data expires_delta issued_at checked_at Halg Hnow)
    as (token & Htok & Hdec).
  exists token. split; [done|]. unfold verify_token.
  fold lifetime in Hdec. rewrite Hdec, token_data_exp.
  by destruct (token_data data).
Qed.

(** The token of an API key that never expires carries the key's id,
    permissions and scopes, and no user id. *)
Lemma verify_api_key_token (cfg : Settings) (k : APIKey)
    (first_reading issued_at checked_at : Z) :
  jwt_supports (algorithm cfg) = true →
  ak_expires_at k = None →
  checked_at `div` Py.usec
    < (issued_at + Py.hours (api_key_expire_hours cfg)) `div` Py.usec →
  ∃ token,
    create_api_key_token cfg first_reading issued_at k = Some token ∧
    verify_token cfg checked_at token
      = inr {| key_id := Some (ak_key_id k); user_id := None;
               permissions := ak_permissions k;
               guild_ids := ak_guild_ids k;
               channel_ids := ak_channel_ids k |}.
Proof.
  intros Halg Hnever Hnow. unfold create_api_key_token. rewrite Hnever.
  destruct (verify_issued cfg (api_key_claims k) None issued_at checked_at Halg Hnow)
    as (token & Htok & Hver).
  exists token. split; [done|]. rewrite Hver.
  unfold token_data, api_key_claims.
  repeat (rewrite lookup_insert_eq || rewrite lookup_insert_ne by done).
  rewrite lookup_empty. cbn. by rewrite permission_levels_values.
Qed.

(** C5, as amended.  A token issued at [issued_at] for the claims set [c]
    with a positive lifetime [ttl] verifies to exactly [c] (key id, user
    id, permissions, guild ids and channel ids all unchanged) at any time
    [checked_at] whose whole second lies before the whole second of the
    expiry instant [issued_at + ttl]. *)
Theorem issue_then_verify (cfg : Settings) (c : TokenData)
    (ttl issued_at checked_at : Z) :
  jwt_supports (algorithm cfg) = true →
  0 < ttl →
  checked_at `div` Py.usec < (issued_at + ttl) `div` Py.usec →
  ∃ token,
    create_access_token cfg issued_at (claims_dict c) (Some ttl) = Some token ∧
    verify_token cfg checked_at token = inr c.
Proof.
  intros Halg Httl Hnow.
  destruct (verify_issued cfg (claims_dict c) (Some ttl) issued_at checked_at Halg)
    as (token & Htok & Hver).
  { destruct ttl; [lia | done | lia]. }
  exists token. by rewrite Hver, token_data_claims_dict.
Qed.

(** C8, as amended.  A permissions claim with strings outside the enum
    does not make [verify_token] fail: the token verifies exactly when
    its other claims are well formed, and the permissions it yields are
    the known strings of the claim, in order, the others left out. *)
Theorem unknown_permissions_are_dropped (cfg : Settings) (utcnow : Z)
    (token : string) (p : payload) (l : list string) :
  jwt_decode token (secret_key cfg) [algorithm cfg] (utcnow `div` Py.usec) = inr p →
  p !! "permissions" = Some (JList l) →
  verify_token cfg utcnow token
    = from_option inr (inl AttributeError)
        ((λ td, with_permissions td (omap Permission.of_value l))
           <$> token_data (delete "permissions" p)) ∧
  ((∃ td, verify_token cfg utcnow token = inr td)
     ↔ is_Some (token_data (delete "permissions" p))).
Proof.
  intros Hdec Hperm. unfold verify_token. rewrite Hdec.
  assert (token_data p
          = (λ td, with_permissions td (omap Permission.of_value l))
              <$> token_data (delete "permissions" p)) as ->.
  { unfold token_data. rewrite Hperm, lookup_delete_eq.
    rewrite !lookup_delete_ne by done. cbn.
    rewrite omap_of_value_filter.
    destruct (optional_str (p !! "key_id")); [|done].
    destruct (optional_str (p !! "user_id")); [|done].
    destruct (str_list (p !! "guild_ids")); [|done].
    by destruct (str_list (p !! "channel_ids")). }
  destruct (token_data (delete "permissions" p)) as [td|]; cbn.
  - split; [done|]. split; [by eauto | by eexists].
  - split; [done|]. split; [by intros [? [=]] | by intros [? [=]]].
Qed.

End codec_claims.

Section codec_examples.
Import Security Claims.

(** C5 as stated fails: under the default settings a token issued at
    12:00:00.9 for one second is refused at 12:00:01.5, four tenths of a
    second before its lifetime is over; its [exp] is 12:00:01. *)
Lemma token_refused_before_lifetime_ends :
  let c := {| key_id := Some "key_1"; user_id := None;
              permissions := [READ_ONLY];
              guild_ids := []; channel_ids := [] |} in
  let issued_at := 43200900000 in
  let ttl := 1000000 in
  let checked_at := 43201500000 in
  0 < ttl ∧ issued_at ≤ checked_at < issued_at + ttl ∧
  ∃ token,
    @create_access_token RefJwt.ref_jwt default_settings issued_at
      (claims_dict c) (Some ttl) = Some token ∧
    @verify_token RefJwt.ref_jwt default_settings checked_at token
      = inl AttributeError.
Proof.
  intros c issued_at ttl checked_at. split; [done|]. split; [done|].
  eexists. split; [reflexivity|].
  unfold verify_token. cbn [jwt_decode RefJwt.ref_jwt].
  unfold RefJwt.ref_decode. rewrite RefJwt.unseal_seal.
  rewrite bool_decide_eq_true_2 by (split; [done | set_solver]).
  by rewrite lookup_insert_eq.
Qed.

(** C8 as stated fails: under the default settings a token whose
    permissions claim is ["read_only", "superuser"] verifies, as a
    principal holding READ_ONLY. *)
Lemma unknown_permission_accepted :
  let p : payload :=
    <["exp" := JNum 2000]>
    (<["key_id" := JStr "key_1"]>
    (<["permissions" := JList ["read_only"; "superuser"]]> ∅)) in
  let token := RefJwt.seal p (secret_key default_settings) "HS256" in
  @jwt_decode RefJwt.ref_jwt token (secret_key default_settings) ["HS256"]
    (1000000000 `div` Py.usec) = inr p ∧
  p !! "permissions" = Some (JList ["read_only"; "superuser"]) ∧
  Permission.is_value "superuser" = false ∧
  @verify_token RefJwt.ref_jwt default_settings 1000000000 token
    = inr {| key_id := Some "key_1"; user_id := None;
             permissions := [READ_ONLY];
             guild_ids := []; channel_ids := [] |}.
Proof.
  intros p token.
  assert (@jwt_decode RefJwt.ref_jwt token (secret_key default_settings)
            ["HS256"] (1000000000 `div` Py.usec) = inr p) as Hdec.
  { apply (RefJwt.ref_decode_encode p _ "HS256" token _ 2000); done. }
  split_and!; [done | done | done |].
  unfold verify_token. cbn [algorithm default_settings]. by rewrite Hdec.
Qed.

End codec_examples.

(** ** The rate-limit key *)

Section key_facts.
Import Security Middleware Claims RateLimiter.

Lemma prefix_split (p s : string) :
  String.prefix p s = true → ∃ r, s = p +:+ r.
Proof.
  revert s. induction p as [|c p IH]; intros s Hp.
  - by exists s.
  - destruct s as [|c' s]; cbn in Hp; [done|].
    destruct (ascii_dec c c') as [->|]; [|done].
    apply IH in Hp as (r & ->). by exists r.
Qed.

Lemma split_space_cons s : ∃ piece pieces, Py.split_space s = piece :: pieces.
Proof.
  induction s as [|c s (piece & pieces & IH)]; cbn; [by eauto|].
  destruct (Ascii.eqb c " "); [by eauto|]. rewrite IH. by eauto.
Qed.

(** After ["Bearer "] there is always a second piece to take. *)
Lemma bearer_has_token h :
  Py.startswith h "Bearer " = true → is_Some (Py.split_space h !! 1%nat).
Proof.
  intros (r & ->)%prefix_split.
  destruct (split_space_cons r) as (piece & pieces & Hr).
  unfold String.append. cbn. fold String.append. cbn. rewrite Hr. by eexists.
Qed.


End key_facts.

Section key_claims.
Import Security Middleware Claims RateLimiter.
Context `{!JwtLib}.


End key_claims.

Section key_examples.
Import Security Middleware Claims RateLimiter.


(** C10. [create_rate_limit_key] is not injective: an identifier with a
    colon in it and a shorter identifier with a longer endpoint give the
    same key. *)
Theorem create_rate_limit_key_not_injective :
  ∃ prefix identifier1 endpoint1 identifier2 endpoint2,
    (identifier1, endpoint1) ≠ (identifier2, endpoint2) ∧
    create_rate_limit_key prefix identifier1 endpoint1
    = create_rate_limit_key prefix identifier2 endpoint2.
Proof.
  exists "api", "a:b", (Some "c"), "a", (Some "b:c").
  split; [discriminate | reflexivity].
Qed.

End key_examples.

(** ** Concrete runs of the limiter *)

Section limiter_examples.
Import Redis RateLimiter.

(** C2 as stated fails: with limit 1 and a 60 s window, the second call
    finds one request on record, answers [False], and is recorded all the
    same. *)
Lemma refused_call_is_recorded :
  let st1 := fst (is_allowed default_settings 1000 Up ∅ "k" (Some 1) (Some 60) 1000) in
  let after := is_allowed default_settings 1000 Up st1 "k" (Some 1) (Some 60) 2000 in
  snd after = false ∧
  size (survivors 1000 60 2000 "k" st1) = 1%nat ∧
  (2000 ∉ survivors 1000 60 2000 "k" st1) ∧
  (2000 ∈ stored "k" (fst after)) ∧
  stored "k" (fst after) ≠ survivors 1000 60 2000 "k" st1.
Proof.
  intros st1 after.
  assert (2000 ∉ survivors 1000 60 2000 "k" st1) as Hout by (by vm_compute).
  assert (2000 ∈ stored "k" (fst after)) as Hin by (by vm_compute).
  split_and!; [by vm_compute | by vm_compute | done | done |].
  intros Heq. by rewrite Heq in Hin.
Qed.


(** What the transaction is for: were the same commands sent outside
    MULTI and EXEC, the server would run each as it arrives, and two
    callers whose requests alternate would both be told that nothing is
    on record, so both would pass a limit of 1. *)
Example without_transaction_both_see_zero :
  let requests :=
    [ (0%nat, 1000, ZREMRANGEBYSCORE "k" 0 (1000 - 60 * 1000));
      (1%nat, 2000, ZREMRANGEBYSCORE "k" 0 (2000 - 60 * 1000));
      (0%nat, 1000, ZCARD "k");
      (1%nat, 2000, ZCARD "k");
      (0%nat, 1000, ZADD "k" 1000);
      (1%nat, 2000, ZADD "k" 2000) ] in
  let run :=
    foldl (λ '(s, replies) '(conn, now, c),
             let '(s', reply) := serve 1000 now conn (COMMAND c) s in
             (s', replies ++ [reply]))
          ({| keyspace := ∅; queues := ∅ |}, []) requests in
  snd run = [[0]; [0]; [0]; [0]; [1]; [1]].
Proof. by vm_compute. Qed.


End limiter_examples.

(** ** The theorems at concrete inputs *)

(** Splits a membership in a literal list into its cases. *)
Ltac in_cases H :=
  repeat (apply elem_of_cons in H as [->|H]); [..| by apply elem_of_nil in H].

Section instances.
Import Redis RateLimiter Security Claims.


(** One call on an empty store, limit 2, window 60 s. *)
Lemma is_allowed_always_records_witness :
  let after := is_allowed default_settings 1000 Up ∅ "k" (Some 2) (Some 60) 5000 in
  (snd after = true ↔ Z.of_nat (size (survivors 1000 60 5000 "k" ∅)) < 2) ∧
  fst after !! "k"
    = Some {| zmembers := {[5000]} ∪ survivors 1000 60 5000 "k" ∅;
              zdeadline := Some (5000 + 60 * 1000) |} ∧
  5000 ∈ stored "k" (fst after) ∧
  (∀ other, other ≠ "k" → fst after !! other = (∅ : store) !! other).
Proof.
  apply (is_allowed_always_records default_settings 1000 ∅ "k"
           (Some 2) (Some 60) 5000).
  vm_compute. discriminate.
Defined.


(** A read-only key scoped to guild g1, issued at 12:00:00.9 for an hour
    and checked half an hour later. *)
Lemma issue_then_verify_witness :
  let c := {| key_id := Some "key_1"; user_id := None;
              permissions := [READ_ONLY];
              guild_ids := ["g1"]; channel_ids := [] |} in
  ∃ token,
    @create_access_token RefJwt.ref_jwt default_settings 43200900000
      (claims_dict c) (Some 3600000000) = Some token ∧
    @verify_token RefJwt.ref_jwt default_settings 45000900000 token = inr c.
Proof.
  apply (@issue_then_verify RefJwt.ref_jwt default_settings
           {| key_id := Some "key_1"; user_id := None;
              permissions := [READ_ONLY];
              guild_ids := ["g1"]; channel_ids := [] |}
           3600000000 43200900000 45000900000).
  - reflexivity.
  - reflexivity.
  - reflexivity.
Defined.

(** A token whose permissions claim is ["admin", "root"]. *)
Lemma unknown_permissions_are_dropped_witness :
  let p : payload :=
    <["exp" := JNum 2000]> (<["permissions" := JList ["admin"; "root"]]> ∅) in
  let token := RefJwt.seal p (secret_key default_settings) "HS256" in
  @verify_token RefJwt.ref_jwt default_settings 1000000000 token
    = from_option inr (inl AttributeError)
        ((λ td, with_permissions td (omap Permission.of_value ["admin"; "root"]))
           <$> token_data (delete "permissions" p)) ∧
  ((∃ td, @verify_token RefJwt.ref_jwt default_settings 1000000000 token = inr td)
     ↔ is_Some (token_data (delete "permissions" p))).
Proof.
  intros p token.
  apply (@unknown_permissions_are_dropped RefJwt.ref_jwt default_settings 1000000000
           token p ["admin"; "root"]).
  - apply (RefJwt.ref_decode_encode p _ "HS256" token _ 2000); reflexivity.
  - reflexivity.
Defined.

End instances.

(** * Further properties of the code *)

(** ** The limiter as a sliding-window log *)

Section sliding_window.
Import Redis RateLimiter.
Context (cfg : Settings) (hz : Z) (key : string) (limit window : option Z).

Let L := Py.or_int limit (rate_limit_requests cfg).
Let W := Py.or_int window (rate_limit_window cfg).




End sliding_window.

Section window_log_facts.
Import RateLimiter.






End window_log_facts.

Section sliding_window_theorems.
Import Redis RateLimiter.



End sliding_window_theorems.

(** ** One call: what it reads and what it writes *)

Section call_facts.
Import Redis RateLimiter.
Context (cfg : Settings) (hz : Z).

(** A broken connection that had the block applied leaves the store as a
    healthy call does. *)
Lemma is_allowed_down_applied st key limit window now :
  fst (is_allowed cfg hz (Down true) st key limit window now)
  = fst (is_allowed cfg hz Up st key limit window now).
Proof.
  unfold is_allowed, execute.
  destruct (exec hz now _ st) as [st' results]. cbn.
  by destruct (results !! 1%nat).
Qed.

(** A call writes under its own key only. *)
Lemma is_allowed_frame lk st key limit window now other :
  other ≠ key →
  fst (is_allowed cfg hz lk st key limit window now) !! other = st !! other.
Proof.
  intros Hne. destruct lk as [|[|]].
  - rewrite is_allowed_up. cbn [fst].
    destruct (_ <=? 0); [by rewrite lookup_delete_ne | by rewrite lookup_insert_ne].
  - rewrite is_allowed_down_applied, is_allowed_up. cbn [fst].
    destruct (_ <=? 0); [by rewrite lookup_delete_ne | by rewrite lookup_insert_ne].
  - done.
Qed.

(** A call reads under its own key only. *)
Lemma is_allowed_local lk (st1 st2 : store) key limit window now :
  st1 !! key = st2 !! key →
  snd (is_allowed cfg hz lk st1 key limit window now)
  = snd (is_allowed cfg hz lk st2 key limit window now).
Proof.
  intros Heq. destruct lk as [|applied].
  - rewrite !is_allowed_up. cbn [snd].
    unfold survivors, zrange, lookup_live. by rewrite Heq.
  - unfold is_allowed, execute. by destruct applied.
Qed.

Lemma calls_frame key limit window nows other : ∀ st,
  other ≠ key →
  fst (calls cfg hz st key limit window nows) !! other = st !! other.
Proof.
  induction nows as [|now rest IH]; intros st Hne; [done|]. cbn [calls].
  pose proof (is_allowed_frame Up st key limit window now other Hne) as H1.
  destruct (is_allowed cfg hz Up st key limit window now) as [st1 a].
  specialize (IH st1 Hne).
  destruct (calls cfg hz st1 key limit window rest) as [st2 bs].
  cbn [fst] in *. by rewrite IH.
Qed.

End call_facts.

Section call_theorems.
Import Redis RateLimiter.

(** X3. Whenever a call on a healthy connection is admitted, the key
    afterwards holds at most [L] readings. *)
Theorem admitted_leaves_at_most_limit
    (cfg : Settings) (hz : Z) (st : store) (key : string)
    (limit window : option Z) (now : Z) :
  let L := Py.or_int limit (rate_limit_requests cfg) in
  let after := is_allowed cfg hz Up st key limit window now in
  snd after = true →
  Z.of_nat (size (stored key (fst after))) ≤ L.
Proof.
  intros L after. unfold after. rewrite is_allowed_up. cbn [fst snd]. fold L.
  intros Hlt%Z.ltb_lt. unfold stored.
  destruct (_ <=? 0).
  - rewrite lookup_delete_eq, size_empty. lia.
  - rewrite lookup_insert_eq. cbn [zmembers].
    rewrite size_union_alt, size_singleton.
    pose proof (subseteq_size
                  (survivors hz (Py.or_int window (rate_limit_window cfg)) now key st ∖ {[now]})
                  (survivors hz (Py.or_int window (rate_limit_window cfg)) now key st)
                  ltac:(set_solver)).
    lia.
Qed.

(** X4. Keys do not interfere: whatever calls are made for one key, on
    whatever connection, another key keeps its stored state and gets the
    answers it would have got without them. *)
Theorem keys_are_isolated
    (cfg : Settings) (hz : Z) (lk : link) (st : store) (key other : string)
    (limit window : option Z) (now : Z) (nows : list Z) :
  other ≠ key →
  fst (is_allowed cfg hz lk st key limit window now) !! other = st !! other ∧
  fst (calls cfg hz st key limit window nows) !! other = st !! other ∧
  (∀ lk' limit' window' now',
     snd (is_allowed cfg hz lk' (fst (is_allowed cfg hz lk st key limit window now))
            other limit' window' now')
     = snd (is_allowed cfg hz lk' st other limit' window' now')) ∧
  (∀ lk' limit' window' now',
     snd (is_allowed cfg hz lk' (fst (calls cfg hz st key limit window nows))
            other limit' window' now')
     = snd (is_allowed cfg hz lk' st other limit' window' now')).
Proof.
  intros Hne. split_and!.
  - by apply is_allowed_frame.
  - by apply calls_frame.
  - intros. apply is_allowed_local. by apply is_allowed_frame.
  - intros. apply is_allowed_local. by apply calls_frame.
Qed.

(** X5. After [reset_rate_limit] the key holds nothing, other keys are
    as before, and with a limit of at least one the next call for the
    key is admitted whatever had been recorded. *)
Theorem reset_then_admitted
    (cfg : Settings) (hz : Z) (st : store) (key : string)
    (limit window : option Z) (now : Z) :
  let L := Py.or_int limit (rate_limit_requests cfg) in
  let cleared := fst (reset_rate_limit st key) in
  1 ≤ L →
  stored key cleared = ∅ ∧
  (∀ other, other ≠ key → cleared !! other = st !! other) ∧
  snd (is_allowed cfg hz Up cleared key limit window now) = true.
Proof.
  intros L cleared HL. unfold cleared, reset_rate_limit. cbn [fst].
  assert (stored key (delete key st) = ∅) as Hempty.
  { unfold stored. by rewrite lookup_delete_eq. }
  split_and!.
  - done.
  - intros other Hne. by rewrite lookup_delete_ne.
  - apply is_allowed_after_quiet; [done|].
    intros s Hs. rewrite Hempty in Hs. set_solver.
Qed.

End call_theorems.

(** ** [get_rate_limit_info] *)

Section info_facts.
Import Redis RateLimiter.





End info_facts.

Section info_theorems.
Import Redis RateLimiter.


(** X7. What is reported and what is enforced agree in one direction:
    when no reading on record is negative or later than [now] and
    [get_rate_limit_info] reports something remaining, a call with the
    configured limit and window at that moment is admitted. *)
Theorem remaining_means_admitted
    (cfg : Settings) (hz : Z) (st : store) (key : string) (now : Z) :
  (∀ s, s ∈ zrange now key st → 0 ≤ s ∧ s ≤ now) →
  0 < info_remaining (get_rate_limit_info cfg hz Up st key now) →
  snd (is_allowed cfg hz Up st key None None now) = true.
Proof.
  intros Hrange Hleft. rewrite is_allowed_up. cbn [snd Py.or_int].
  unfold get_rate_limit_info, zcount in Hleft. cbn [info_remaining] in Hleft.
  apply Z.ltb_lt.
  assert (survivors hz (rate_limit_window cfg) now key st
          ⊆ filter (in_range (now - rate_limit_window cfg * hz) now) (zrange now key st))
    as Hsub.
  { intros s [Hout Hs]%elem_of_filter. apply elem_of_filter. split; [|done].
    destruct (Hrange s Hs). unfold in_range in *. lia. }
  apply subseteq_size in Hsub. lia.
Qed.

End info_theorems.

(** ** Keys without colons *)

Section key_injectivity.
Import RateLimiter.

Lemma append_cons c (r x : string) : String c r +:+ x = String c (r +:+ x).
Proof. reflexivity. Qed.

Lemma append_nil (x : string) : "" +:+ x = x.
Proof. reflexivity. Qed.

Lemma has_char_append c (a b : string) :
  Py.has_char c (a +:+ String c b) = true.
Proof.
  induction a as [|c' a IH].
  - rewrite append_nil. cbn [Py.has_char]. by rewrite Ascii.eqb_refl.
  - rewrite append_cons. cbn [Py.has_char]. rewrite IH. apply orb_true_r.
Qed.

(** A separator that occurs in neither head splits in one way only. *)
Lemma append_sep_inj c (a a' b b' : string) :
  Py.has_char c a = false → Py.has_char c a' = false →
  a +:+ String c b = a' +:+ String c b' →
  a = a' ∧ b = b'.
Proof.
  revert a'. induction a as [|x a IH]; intros [|x' a'] Ha Ha' Heq;
    rewrite ?append_cons, ?append_nil in Heq; cbn [Py.has_char] in Ha, Ha'.
  - by simplify_eq.
  - injection Heq as <- _. by rewrite Ascii.eqb_refl in Ha'.
  - injection Heq as -> _. by rewrite Ascii.eqb_refl in Ha.
  - apply orb_false_iff in Ha as [_ Ha]. apply orb_false_iff in Ha' as [_ Ha'].
    injection Heq as -> Heq. destruct (IH a' Ha Ha' Heq) as [-> ->]. done.
Qed.

Lemma create_rate_limit_key_None prefix identifier :
  create_rate_limit_key prefix identifier None = prefix +:+ String ":" identifier.
Proof. reflexivity. Qed.

Lemma create_rate_limit_key_Some prefix identifier c e :
  create_rate_limit_key prefix identifier (Some (String c e))
  = prefix +:+ String ":" (identifier +:+ String ":" (String c e)).
Proof. reflexivity. Qed.

(** X8. When neither the prefixes nor the identifiers contain a colon
    and no endpoint is the empty string, [create_rate_limit_key] is
    one-to-one: equal keys come from equal prefix, identifier and
    endpoint. *)
Theorem create_rate_limit_key_injective
    (prefix prefix' identifier identifier' : string)
    (endpoint endpoint' : option string) :
  Py.has_char ":" prefix = false → Py.has_char ":" prefix' = false →
  Py.has_char ":" identifier = false → Py.has_char ":" identifier' = false →
  endpoint ≠ Some "" → endpoint' ≠ Some "" →
  create_rate_limit_key prefix identifier endpoint
    = create_rate_limit_key prefix' identifier' endpoint' →
  prefix = prefix' ∧ identifier = identifier' ∧ endpoint = endpoint'.
Proof.
  intros Hp Hp' Hi Hi' He He' Hkey.
  destruct endpoint as [[|c e]|], endpoint' as [[|c' e']|]; try done;
    rewrite ?create_rate_limit_key_None, ?create_rate_limit_key_Some in Hkey;
    destruct (append_sep_inj _ _ _ _ _ Hp Hp' Hkey) as [-> Hrest].
  - destruct (append_sep_inj _ _ _ _ _ Hi Hi' Hrest) as [-> ->]. done.
  - subst identifier'. by rewrite has_char_append in Hi'.
  - subst identifier. by rewrite has_char_append in Hi.
  - by subst.
Qed.

End key_injectivity.

(** ** More on permissions and tokens *)

Section permission_order.
Import Security Middleware Claims.

(** Level and scopes are checked one after the other. *)
Lemma check_permission_split td required guild_id channel_id :
  check_permission td required guild_id channel_id = true ↔
  holds_level (permissions td) required ∧
  code_in_scope guild_id (guild_ids td) ∧
  code_in_scope channel_id (channel_ids td).
Proof.
  rewrite <- level_check_holds, <- !scope_guard.
  unfold check_permission. cbn.
  destruct (if bool_decide _ then false else _); [naive_solver|].
  destruct (Py.truthy_str guild_id && _ && _);
    destruct (Py.truthy_str channel_id && _ && _); naive_solver.
Qed.

(** X9. Holding more or asking for less never turns a pass into a
    refusal: if [check_permission] succeeds for a principal, it succeeds
    as well for a principal with the same scopes whose permissions
    include the first one's, and for any requirement that is not higher,
    with the same guild and channel. *)
Theorem check_permission_monotone (td td' : TokenData)
    (required required' : PermissionLevel) (guild_id channel_id : option string) :
  permissions td ⊆ permissions td' →
  guild_ids td' = guild_ids td →
  channel_ids td' = channel_ids td →
  permission_hierarchy required' ≤ permission_hierarchy required →
  check_permission td required guild_id channel_id = true →
  check_permission td' required' guild_id channel_id = true.
Proof.
  intros Hsub Hg Hc Hle. rewrite !check_permission_split, Hg, Hc.
  intros ((h & Hh & Hlevel) & Hguild & Hchannel). split_and!; [|done..].
  exists h. split; [by apply Hsub | lia].
Qed.

End permission_order.

Section api_key_tokens.
Import Security Claims.
Context `{!JwtLib}.

(** X10. The token of an API key with an expiry date.  The clock is
    read twice, at [first_reading] for the time left until the date and
    at [issued_at] when that time is added back, so the token expires
    [expires_at - first_reading] after [issued_at].  At any time whose
    whole second lies before the whole second of that instant the token
    verifies to the key's id, permissions and scopes and no user id.
    When the date equals the first reading to the microsecond, the
    difference is a zero [timedelta], which counts as none given: the
    token then lives for the configured [api_key_expire_hours]. *)
Theorem api_key_token_expiry (cfg : Settings) (k : APIKey)
    (expires_at first_reading issued_at checked_at : Z) :
  let lifetime :=
    if expires_at =? first_reading
    then Py.hours (api_key_expire_hours cfg)
    else expires_at - first_reading in
  jwt_supports (algorithm cfg) = true →
  ak_expires_at k = Some expires_at →
  checked_at `div` Py.usec < (issued_at + lifetime) `div` Py.usec →
  ∃ token,
    create_api_key_token cfg first_reading issued_at k = Some token ∧
    verify_token cfg checked_at token
      = inr {| key_id := Some (ak_key_id k); user_id := None;
               permissions := ak_permissions k;
               guild_ids := ak_guild_ids k;
               channel_ids := ak_channel_ids k |}.
Proof.
  intros lifetime Halg Hexp Hnow. unfold create_api_key_token. rewrite Hexp.
  destruct (verify_issued cfg (api_key_claims k) (Some (expires_at - first_reading))
              issued_at checked_at Halg) as (token & Htok & Hver).
  { unfold lifetime in Hnow. destruct (expires_at =? first_reading) eqn:E.
    - apply Z.eqb_eq in E. by replace (expires_at - first_reading) with 0 by lia.
    - apply Z.eqb_neq in E.
      destruct (expires_at - first_reading) eqn:Ed; [lia | done | done]. }
  exists token. split; [done|]. rewrite Hver.
  unfold token_data, api_key_claims.
  repeat (rewrite lookup_insert_eq || rewrite lookup_insert_ne by done).
  rewrite lookup_empty. cbn. by rewrite permission_levels_values.
Qed.

End api_key_tokens.

(** ** The bearer header and the middleware *)

Section bearer_facts.
Import Security Middleware Claims.

Lemma split_space_no_space (tok : string) :
  Py.has_char " " tok = false → Py.split_space tok = [tok].
Proof.
  induction tok as [|c tok IH]; [done|]. cbn [Py.has_char Py.split_space].
  intros [Hc Htok]%orb_false_iff. rewrite Ascii.eqb_sym, Hc, (IH Htok). done.
Qed.

(** A token without spaces comes back whole from behind ["Bearer "]. *)
Lemma split_bearer_token (tok : string) :
  Py.has_char " " tok = false →
  Py.startswith ("Bearer " +:+ tok) "Bearer " = true ∧
  Py.split_space ("Bearer " +:+ tok) !! 1%nat = Some tok.
Proof.
  intros Htok. split.
  - unfold Py.startswith.
    change ("Bearer " +:+ tok)
      with (String "B" (String "e" (String "a" (String "r" (String "e"
             (String "r" (String " " tok))))))).
    cbn. by destruct tok.
  - change ("Bearer " +:+ tok)
      with (String "B" (String "e" (String "a" (String "r" (String "e"
             (String "r" (String " " tok))))))).
    cbn [Py.split_space Ascii.eqb Bool.eqb]. rewrite (split_space_no_space tok Htok).
    reflexivity.
Qed.

End bearer_facts.

Section bearer_theorems.
Import Security Middleware Claims.
Context `{!JwtLib}.

(** X11. [authenticate_request] never fails with an index error, and
    the principal that [rate_limit_middleware] limits is the one it
    authenticates.  Without a bearer token it returns [None] and the
    middleware's identifier is ["anonymous"].  With one, both hand the
    token to [verify_token]: when that returns claims,
    [authenticate_request] returns them and the middleware's identifier
    is read off them; when it raises, both raise what it raises. *)
Theorem authenticate_request_follows_verify_token
    (cfg : Settings) (utcnow : Z) (request : Request) :
  authenticate_request cfg utcnow request ≠ inl IndexError ∧
  match bearer_token request with
  | None =>
      authenticate_request cfg utcnow request = inr None ∧
      middleware_user_id cfg utcnow request = inr "anonymous"
  | Some token =>
      match verify_token cfg utcnow token with
      | inr td =>
          authenticate_request cfg utcnow request = inr (Some td) ∧
          middleware_user_id cfg utcnow request = inr (code_principal (Some td))
      | inl e =>
          authenticate_request cfg utcnow request = inl e ∧
          middleware_user_id cfg utcnow request = inl e
      end
  end.
Proof.
  unfold authenticate_request, middleware_user_id, bearer_token.
  destruct (authorization request) as [h|]; [|done].
  destruct h as [|c h]; [done|]. cbn [Py.truthy_str negb orb andb].
  destruct (Py.startswith (String c h) "Bearer ") eqn:E; [|done].
  destruct (bearer_has_token _ E) as [token ->]. cbn [negb].
  destruct (verify_token cfg utcnow token) as [e|td] eqn:Hver; [|done].
  split; [|done]. apply verify_token_raises in Hver. by subst e.
Qed.

(** X12. A token issued for the claims [c], sent as ["Bearer <token>"]
    before it expires, authenticates the request as [c], both through
    [authenticate_request] and through [get_current_user]; the token must
    not contain a space, as the header is split on spaces. *)
Theorem issued_token_authenticates (cfg : Settings) (c : TokenData)
    (ttl issued_at checked_at : Z) (token path : string) (address : option string) :
  0 < ttl →
  checked_at `div` Py.usec < (issued_at + ttl) `div` Py.usec →
  create_access_token cfg issued_at (claims_dict c) (Some ttl) = Some token →
  Py.has_char " " token = false →
  authenticate_request cfg checked_at
    {| authorization := Some ("Bearer " +:+ token);
       url_path := path; client_host := address |}
    = inr (Some c) ∧
  get_current_user cfg checked_at token = inr c.
Proof.
  intros Httl Hnow Htok Hspace.
  assert (verify_token cfg checked_at token = inr c) as Hver.
  { unfold create_access_token in Htok.
    destruct (ttl =? 0) eqn:E; [apply Z.eqb_eq in E; lia|].
    unfold verify_token.
    rewrite (jwt_decode_encode _ _ _ _ _ ((issued_at + ttl) `div` Py.usec) Htok);
      [| by rewrite lookup_insert_eq | done].
    by rewrite token_data_exp, token_data_claims_dict. }
  destruct (split_bearer_token token Hspace) as [Hstart Hsplit].
  split.
  - unfold authenticate_request. cbn [authorization].
    rewrite Hstart, Hsplit, Hver.
    by destruct token.
  - unfold get_current_user. by rewrite Hver.
Qed.

End bearer_theorems.

Section middleware_facts.
Import Redis RateLimiter Security Middleware Claims.
Context `{!JwtLib}.

Lemma info_limit_window (cfg : Settings) hz lk (st : store) key now :
  info_limit (get_rate_limit_info cfg hz lk st key now) = rate_limit_requests cfg ∧
  info_window (get_rate_limit_info cfg hz lk st key now) = rate_limit_window cfg.
Proof. by destruct lk. Qed.

End middleware_facts.

Section middleware_theorems.
Import Redis RateLimiter Security Middleware Claims.
Context `{!JwtLib}.

(** X13. With the store unreachable the middleware lets through every
    request for which it arrives at a key: one without a bearer token, or
    one whose token verifies.  The response is the application's own,
    with its status, plus the two headers [X-RateLimit-Limit] and
    [X-RateLimit-Remaining], both showing the configured limit, and no
    reset header. *)
Theorem middleware_open_when_store_down
    (cfg : Settings) (hz : Z) (st : store) (utcnow now later : Z)
    (request : Request) (call_next : Request → Response) (applied applied' : bool)
    (key : string) :
  rate_limit_key cfg utcnow request = inr key →
  ∃ st',
    rate_limit_middleware cfg hz (Down applied) (Down applied') st
      utcnow now later request call_next
    = inr (st', inr {|
        status_code := status_code (call_next request);
        headers :=
          <["X-RateLimit-Remaining" := Py.str_int (rate_limit_requests cfg)]>
          (<["X-RateLimit-Limit" := Py.str_int (rate_limit_requests cfg)]>
             (headers (call_next request))) |}).
Proof.
  intros Hkey. unfold rate_limit_middleware. rewrite Hkey.
  unfold is_allowed, execute. destruct applied; by eexists.
Qed.

(** X14. A 429 is raised only when the store answered and at least the
    configured limit of requests were on record within the window for the
    request's key; it carries [Retry-After] equal to the configured
    window and [X-RateLimit-Limit] equal to the configured limit, whether
    or not the second look at the store succeeded. *)
Theorem too_many_requests_response
    (cfg : Settings) (hz : Z) (lk_check lk_info : link) (st st' : store)
    (utcnow now later : Z) (request : Request)
    (call_next : Request → Response) (e : HTTPException) :
  rate_limit_middleware cfg hz lk_check lk_info st utcnow now later request call_next
    = inr (st', inl e) →
  lk_check = Up ∧
  exc_status_code e = 429 ∧
  exc_headers e !! "Retry-After" = Some (Py.str_int (rate_limit_window cfg)) ∧
  exc_headers e !! "X-RateLimit-Limit" = Some (Py.str_int (rate_limit_requests cfg)) ∧
  ∃ key,
    rate_limit_key cfg utcnow request = inr key ∧
    rate_limit_requests cfg
      ≤ Z.of_nat (size (survivors hz (rate_limit_window cfg) now key st)).
Proof.
  unfold rate_limit_middleware.
  destruct (rate_limit_key cfg utcnow request) as [raised|key] eqn:Hkey; [done|].
  destruct (is_allowed cfg hz lk_check st key None None now) as [st1 allowed] eqn:Hcall.
  destruct allowed; cbn [negb]; [done|]. intros [= <- <-].
  destruct (info_limit_window cfg hz lk_info st1 key later) as [-> ->].
  destruct lk_check as [|applied].
  - rewrite is_allowed_up in Hcall. cbn [Py.or_int] in Hcall.
    injection Hcall as _ Hcount. apply Z.ltb_ge in Hcount.
    split_and!; [done | done | | | by exists key].
    + cbn [exc_headers]. by rewrite !lookup_insert_ne, lookup_insert_eq by done.
    + cbn [exc_headers]. by rewrite lookup_insert_eq.
  - unfold is_allowed, execute in Hcall. by destruct applied.
Qed.

(** X15. When the middleware passes a request on, it returns the
    application's response with its status untouched and every header
    other than the three rate-limit headers as the application set it;
    [X-RateLimit-Limit] shows the configured limit. *)
Theorem passed_response_is_preserved
    (cfg : Settings) (hz : Z) (lk_check lk_info : link) (st st' : store)
    (utcnow now later : Z) (request : Request)
    (call_next : Request → Response) (response : Response) :
  rate_limit_middleware cfg hz lk_check lk_info st utcnow now later request call_next
    = inr (st', inr response) →
  status_code response = status_code (call_next request) ∧
  headers response !! "X-RateLimit-Limit" = Some (Py.str_int (rate_limit_requests cfg)) ∧
  ∀ name,
    name ∉ ["X-RateLimit-Limit"; "X-RateLimit-Remaining"; "X-RateLimit-Reset"] →
    headers response !! name = headers (call_next request) !! name.
Proof.
  unfold rate_limit_middleware.
  destruct (rate_limit_key cfg utcnow request) as [raised|key] eqn:Hkey; [done|].
  destruct (is_allowed cfg hz lk_check st key None None now) as [st1 allowed].
  destruct allowed; cbn [negb]; [|done]. intros [= <- <-].
  destruct (info_limit_window cfg hz lk_info st1 key later) as [-> _].
  cbn [status_code headers]. split_and!; [done | |].
  - destruct (info_reset _) as [[| |]|];
      by rewrite ?(lookup_insert_ne _ "X-RateLimit-Reset"),
                 ?(lookup_insert_ne _ "X-RateLimit-Remaining"), lookup_insert_eq by done.
  - intros name Hname.
    assert (name ≠ "X-RateLimit-Limit" ∧ name ≠ "X-RateLimit-Remaining"
            ∧ name ≠ "X-RateLimit-Reset") as (H1 & H2 & H3).
    { split_and!; intros ->; apply Hname; set_solver. }
    destruct (info_reset _) as [[| |]|];
      by rewrite ?(lookup_insert_ne _ "X-RateLimit-Reset"),
                 ?(lookup_insert_ne _ "X-RateLimit-Remaining"),
                 ?(lookup_insert_ne _ "X-RateLimit-Limit") by done.
Qed.

End middleware_theorems.

(** ** Reported against enforced *)

Section reported_and_enforced.
Import Redis RateLimiter.

(** X16. With no reading on record negative or later than [now], the
    count [get_rate_limit_info] reports on is the count [is_allowed]
    enforces, plus one when a reading is exactly one window old: such a
    reading is already dropped by [is_allowed] but still counted by
    [zcount]. *)
Theorem reported_count_vs_enforced
    (cfg : Settings) (hz : Z) (st : store) (key : string) (now : Z) :
  let W := rate_limit_window cfg in
  (∀ s, s ∈ zrange now key st → 0 ≤ s ∧ s ≤ now) →
  zcount now key (now - W * hz) now st
  = Z.of_nat (size (survivors hz W now key st))
    + (if decide (now - W * hz ∈ zrange now key st) then 1 else 0).
Proof.
  intros W Hrange. unfold zcount, survivors.
  set (X := zrange now key st) in *.
  set (edge := now - W * hz).
  assert (filter (in_range edge now) X
          = filter (λ s, ¬ in_range 0 edge s) X ∪ (X ∩ {[edge]})) as ->.
  { apply set_eq. intros s.
    rewrite elem_of_union, !elem_of_filter, elem_of_intersection, elem_of_singleton.
    unfold in_range. split.
    - intros [Hs Hin]. destruct (decide (s = edge)) as [->|]; [by right|].
      left. split; [lia | done].
    - intros [[Hs Hin]|[Hin ->]]; (split; [|done]); destruct (Hrange _ Hin); lia. }
  rewrite size_union; cycle 1.
  { intros s [Hs _]%elem_of_filter [Hin ->%elem_of_singleton]%elem_of_intersection.
    apply Hs. unfold in_range. destruct (Hrange _ Hin). lia. }
  destruct (decide (edge ∈ X)) as [Hin|Hout].
  - replace (X ∩ {[edge]}) with ({[edge]} : gset Z) by set_solver.
    rewrite size_singleton. lia.
  - replace (X ∩ {[edge]}) with (∅ : gset Z) by set_solver.
    rewrite size_empty. lia.
Qed.

End reported_and_enforced.

(** ** The further properties at concrete inputs *)

Section reference_tokens.

Lemma bits_no_space p : Py.has_char " " (RefJwt.bits p) = false.
Proof. induction p as [q IH|q IH|]; cbn; by rewrite ?IH. Qed.

End reference_tokens.

Section further_instances.
Import Redis RateLimiter Security Middleware Claims.



(** The first call on an empty store, limit 2. *)
Lemma admitted_leaves_at_most_limit_witness :
  Z.of_nat (size (stored "k"
    (fst (is_allowed default_settings 1000 Up ∅ "k" (Some 2) (Some 60) 5000)))) ≤ 2.
Proof.
  apply (admitted_leaves_at_most_limit default_settings 1000 ∅ "k" (Some 2) (Some 60) 5000).
  vm_compute. reflexivity.
Defined.

(** Two calls for key "a" do not touch key "b". *)
Lemma keys_are_isolated_witness :
  fst (calls default_settings 1000 ∅ "a" (Some 2) (Some 60) [1000; 2000]) !! "b"
  = (∅ : store) !! "b".
Proof.
  apply (keys_are_isolated default_settings 1000 Up ∅ "a" "b" (Some 2) (Some 60) 1000
           [1000; 2000]).
  discriminate.
Defined.

(** A reset after a refused call, limit 1. *)
Lemma reset_then_admitted_witness :
  let st1 := fst (calls default_settings 1000 ∅ "k" (Some 1) (Some 60) [1000; 2000]) in
  snd (is_allowed default_settings 1000 Up (fst (reset_rate_limit st1 "k"))
         "k" (Some 1) (Some 60) 3000) = true.
Proof.
  intros st1.
  apply (reset_then_admitted default_settings 1000 st1 "k" (Some 1) (Some 60) 3000).
  vm_compute. discriminate.
Defined.


(** One request on record, asked one second later. *)
Lemma remaining_means_admitted_witness :
  let st1 := fst (is_allowed default_settings 1000 Up ∅ "k" None None 1000) in
  snd (is_allowed default_settings 1000 Up st1 "k" None None 2000) = true.
Proof.
  intros st1.
  apply (remaining_means_admitted default_settings 1000 st1 "k" 2000).
  - assert (zrange 2000 "k" st1 = {[1000]}) as -> by (vm_compute; reflexivity).
    intros s ->%elem_of_singleton. split; vm_compute; discriminate.
  - vm_compute. reflexivity.
Defined.

(** Two keys built from colon-free parts. *)
Lemma create_rate_limit_key_injective_witness :
  "api" = "api" ∧ "key_1" = "key_1" ∧ Some "/messages" = Some "/messages".
Proof.
  apply (create_rate_limit_key_injective "api" "api" "key_1" "key_1"
           (Some "/messages") (Some "/messages")); try reflexivity; discriminate.
Defined.

(** A moderator who is also made admin, asked for less. *)
Lemma check_permission_monotone_witness :
  check_permission
    {| key_id := Some "key_1"; user_id := None; permissions := [MODERATE; ADMIN];
       guild_ids := ["g1"]; channel_ids := [] |}
    READ_WRITE (Some "g1") None = true.
Proof.
  apply (check_permission_monotone
           {| key_id := Some "key_1"; user_id := None; permissions := [MODERATE];
              guild_ids := ["g1"]; channel_ids := [] |}
           {| key_id := Some "key_1"; user_id := None; permissions := [MODERATE; ADMIN];
              guild_ids := ["g1"]; channel_ids := [] |}
           MODERATE READ_WRITE (Some "g1") None).
  - intros p Hp. in_cases Hp. left.
  - reflexivity.
  - reflexivity.
  - vm_compute. discriminate.
  - reflexivity.
Defined.

(** A key that expires at 13:00:00, with the clock read at 12:00:00.9
    and again a quarter of a millisecond later; the token is checked at
    12:59:59.5. *)
Lemma api_key_token_expiry_witness :
  let k := {| ak_key_id := "key_1"; ak_permissions := [READ_ONLY];
              ak_guild_ids := ["g1"]; ak_channel_ids := [];
              ak_expires_at := Some 46800000000 |} in
  ∃ token,
    @create_api_key_token RefJwt.ref_jwt default_settings 43200900000 43200900250 k
      = Some token ∧
    @verify_token RefJwt.ref_jwt default_settings 46799500000 token
      = inr {| key_id := Some "key_1"; user_id := None;
               permissions := [READ_ONLY];
               guild_ids := ["g1"]; channel_ids := [] |}.
Proof.
  apply (@api_key_token_expiry RefJwt.ref_jwt default_settings
           {| ak_key_id := "key_1"; ak_permissions := [READ_ONLY];
              ak_guild_ids := ["g1"]; ak_channel_ids := [];
              ak_expires_at := Some 46800000000 |}
           46800000000 43200900000 43200900250 46799500000).
  - reflexivity.
  - reflexivity.
  - reflexivity.
Defined.

(** A token of the reference library, sent half an hour after issue. *)
Lemma issued_token_authenticates_witness :
  let c := {| key_id := Some "key_1"; user_id := None;
              permissions := [READ_ONLY];
              guild_ids := ["g1"]; channel_ids := [] |} in
  let token :=
    RefJwt.seal
      (<["exp" := JNum ((43200900000 + 3600000000) `div` Py.usec)]> (claims_dict c))
      (secret_key default_settings) (algorithm default_settings) in
  @authenticate_request RefJwt.ref_jwt default_settings 45000900000
    {| authorization := Some ("Bearer " +:+ token);
       url_path := "/messages"; client_host := None |}
    = inr (Some c) ∧
  @get_current_user RefJwt.ref_jwt default_settings 45000900000 token = inr c.
Proof.
  intros c token.
  apply (@issued_token_authenticates RefJwt.ref_jwt default_settings c
           3600000000 43200900000 45000900000 token "/messages" None).
  - reflexivity.
  - reflexivity.
  - reflexivity.
  - apply bits_no_space.
Defined.

End further_instances.

Section middleware_instances.
Import Redis RateLimiter Security Middleware Claims.

(** A request without a token while the store cannot be reached. *)
Lemma middleware_open_when_store_down_witness :
  let request := {| authorization := None; url_path := "/messages";
                    client_host := Some "10.0.0.1" |} in
  let call_next := λ _ : Request, {| status_code := 200; headers := ∅ |} in
  ∃ st',
    @rate_limit_middleware RefJwt.ref_jwt default_settings 1000
      (Down false) (Down true) ∅ 1 1000 1000 request call_next
    = inr (st', inr {|
        status_code := status_code (call_next request);
        headers :=
          <["X-RateLimit-Remaining" := Py.str_int (rate_limit_requests default_settings)]>
          (<["X-RateLimit-Limit" := Py.str_int (rate_limit_requests default_settings)]>
             (headers (call_next request))) |}).
Proof.
  intros request call_next.
  apply (@middleware_open_when_store_down RefJwt.ref_jwt default_settings 1000 ∅
           1 1000 1000 request call_next false true "api:anonymous:/messages").
  reflexivity.
Defined.

(** A second anonymous request to /messages within the window, under a
    limit of one request per minute. *)
Lemma too_many_requests_response_witness :
  let cfg := {| secret_key := "s"; api_key_expire_hours := 24; algorithm := "HS256";
                rate_limit_requests := 1; rate_limit_window := 60 |} in
  let request := {| authorization := None; url_path := "/messages";
                    client_host := Some "10.0.0.1" |} in
  let st := fst (is_allowed cfg 1000 Up ∅ "api:anonymous:/messages" None None 1000) in
  ∃ key,
    @rate_limit_key RefJwt.ref_jwt cfg 1 request = inr key ∧
    1 ≤ Z.of_nat (size (survivors 1000 60 2000 key st)).
Proof.
  intros cfg request st.
  apply (@too_many_requests_response RefJwt.ref_jwt cfg 1000 Up Up st
           (fst (is_allowed cfg 1000 Up st "api:anonymous:/messages" None None 2000))
           1 2000 2000 request
           (λ _, {| status_code := 200; headers := ∅ |})
           {| exc_status_code := 429;
              exc_detail := "Rate limit exceeded";
              exc_headers :=
                <["X-RateLimit-Limit" := "1"]>
                (<["X-RateLimit-Remaining" := "0"]>
                (<["X-RateLimit-Reset" := "61"]>
                (<["Retry-After" := "60"]> ∅))) |}).
  vm_compute. reflexivity.
Defined.

(** The first anonymous request to /messages under the default settings. *)
Lemma passed_response_is_preserved_witness :
  let request := {| authorization := None; url_path := "/messages"; client_host := None |} in
  let call_next := λ _ : Request,
    {| status_code := 200;
       headers := <["Content-Type" := "application/json"]> ∅ |} in
  let response :=
    {| status_code := 200;
       headers :=
         <["X-RateLimit-Reset" := "61"]>
         (<["X-RateLimit-Remaining" := "99"]>
         (<["X-RateLimit-Limit" := "100"]>
         (<["Content-Type" := "application/json"]> ∅))) |} in
  status_code response = status_code (call_next request) ∧
  headers response !! "X-RateLimit-Limit"
    = Some (Py.str_int (rate_limit_requests default_settings)) ∧
  ∀ name,
    name ∉ ["X-RateLimit-Limit"; "X-RateLimit-Remaining"; "X-RateLimit-Reset"] →
    headers response !! name = headers (call_next request) !! name.
Proof.
  intros request call_next response.
  apply (@passed_response_is_preserved RefJwt.ref_jwt default_settings 1000 Up Up ∅
           (fst (is_allowed default_settings 1000 Up ∅ "api:anonymous:/messages"
                   None None 1000))
           1 1000 1000 request call_next response).
  vm_compute. reflexivity.
Defined.

End middleware_instances.

Section reported_instances.
Import Redis RateLimiter.

(** One request on record, looked at exactly one window later: reported
    as still counting, no longer enforced. *)
Lemma reported_count_vs_enforced_witness :
  let st1 := fst (is_allowed default_settings 1000 Up ∅ "k" None None 1000) in
  zcount 61000 "k" (61000 - 60 * 1000) 61000 st1
  = Z.of_nat (size (survivors 1000 60 61000 "k" st1))
    + (if decide (61000 - 60 * 1000 ∈ zrange 61000 "k" st1) then 1 else 0).
Proof.
  intros st1.
  apply (reported_count_vs_enforced default_settings 1000 st1 "k" 61000).
  assert (zrange 61000 "k" st1 = {[1000]}) as -> by (vm_compute; reflexivity).
  intros s ->%elem_of_singleton. split; vm_compute; discriminate.
Defined.

(** At that moment nothing is reported as remaining under a limit of
    one, and yet the call is admitted. *)
Example boundary_reading :
  let cfg := {| secret_key := "s"; api_key_expire_hours := 24; algorithm := "HS256";
                rate_limit_requests := 1; rate_limit_window := 60 |} in
  let st1 := fst (is_allowed cfg 1000 Up ∅ "k" None None 1000) in
  info_remaining (get_rate_limit_info cfg 1000 Up st1 "k" 61000) = 0 ∧
  snd (is_allowed cfg 1000 Up st1 "k" None None 61000) = true.
Proof. by vm_compute. Qed.

End reported_instances.
